(** * High-frequency arbitrage engine (server.js): a shallow embedding

    The service is one JavaScript module.  Its module-level variables are
    the fields of [Globals]; its [async] functions are programs of the
    resumption monad [Prog], whose [Await] nodes are the places where the
    source waits for the network.  What runs between two network waits
    runs without interruption (the JavaScript event loop), so the
    interleavings of overlapping ticks are the interleavings of those
    segments; [System] below schedules them.

    Conventions of the embedding:
    - ETH amounts are integers in wei ([ethers.parseEther] and
      [ethers.formatEther] convert between the two and are the identity
      on that representation).  The number [parseFloat(formatEther bal)]
      is represented by [bal]; [MIN_GAS_ETH = 0.01] is [10^16] wei, and
      the comparison [balance < MIN_GAS_ETH] is exact on
      this representation since the nearest double to
      0.009999999999999999 lies strictly below the nearest double to 0.01;
    - a timestamp is the clock reading in milliseconds, not its ISO text;
    - [console.log] and [console.error] output is not modelled;
    - the result objects keep the fields that vary from tick to tick, the
      constant ones are recovered by [result_error] and [result_success];
    - the route [/] and the constant [REAL_ETH_PROFIT_PER_TRADE], which
      only [/status] prints, are left out; of [/withdraw] the parsing of
      the request body and the floating-point test of the amount are kept
      abstract. *)

From Stdlib Require Import ZArith List String Bool Lia Arith PeanoNat.
From Stdlib Require Import DecimalString.
Import ListNotations.
Open Scope string_scope.
Open Scope Z_scope.

(** ** Configuration constants (lines 24-37) *)

Definition Address := string.

Definition TREASURY_WALLET_ADDRESS : Address :=
  "0x0fF31D4cdCE8B3f7929c04EbD4cd852608DC09f4".
Definition COINBASE_WALLET : Address :=
  "0x4024Fd78E2AD5532FBF3ec2B3eC83870FAe45fC7".

(** one ETH in wei *)
Definition ether : Z := 10 ^ 18.

Definition ETH_PRICE : Z := 3450.
(** 0.01 ETH *)
Definition MIN_GAS_ETH : Z := 10 ^ 16.
(** 1.0 ETH *)
Definition AGGREGATE_PROFIT_ETH : Z := 1 * ether.
Definition EXECUTION_RATE_MS : Z := 1000.
Definition STRATEGIES_PER_EXECUTION : nat := 450.
(** 1000 ETH *)
Definition FLASH_LOAN_AMOUNT_ETH : Z := 1000 * ether.
(** [AGGREGATE_PROFIT_ETH * ETH_PRICE], in USD *)
Definition AGGREGATE_PROFIT_USD : Z := (AGGREGATE_PROFIT_ETH / ether) * ETH_PRICE.

(** ** What the module takes from outside

    [process.env], the key-to-address derivation of [ethers.Wallet]
    ([None] when the constructor rejects the key) and the outcomes of the
    successive [Math.random() > 0.05] tests. *)

Record Env := {
  TREASURY_PRIVATE_KEY : option string;
  ETHERSCAN_RPC_URL : option string;
  Wallet_address : string -> option Address;
  random_above : nat -> bool
}.

(** JavaScript truthiness of an environment variable: set and not empty. *)
Definition truthy (v : option string) : option string :=
  match v with
  | Some "" => None
  | other => other
  end.

Definition PRIVATE_KEY (env : Env) : option string :=
  truthy (TREASURY_PRIVATE_KEY env).

(** lines 44-57 *)
Definition PUBLIC_RPC_URLS : list string :=
  [ "https://ethereum-rpc.publicnode.com";
    "https://cloudflare-eth.com";
    "https://eth.meowrpc.com";
    "https://eth.llamarpc.com";
    "https://1rpc.io/eth" ].

Definition RPC_URLS (env : Env) : list string :=
  match truthy (ETHERSCAN_RPC_URL env) with
  | Some url => url :: PUBLIC_RPC_URLS
  | None => PUBLIC_RPC_URLS
  end.

(** ** The strategy table (lines 61-65) *)

Record Strategy := {
  id : Z;
  path : string;
  profitCheck : bool
}.

Definition decimal (i : nat) : string := NilZero.string_of_uint (Nat.to_uint i).

Definition make_strategy (env : Env) (i : nat) : Strategy :=
  {| id := Z.of_nat i + 1;
     path := "DEX_A/Token_" ++ decimal i ++ " -> DEX_B/Token_" ++ decimal i;
     profitCheck := random_above env i |}.

(** [Array.from({ length: 450 }, ...)]: evaluated once, when the module
    is loaded; the i-th entry consumes the i-th random draw. *)
Definition STRATEGIES (env : Env) : list Strategy :=
  map (make_strategy env) (seq 0 450).

(** ** Providers, wallet, results *)

Record JsonRpcProvider := {
  url : string;
  network : string
}.

(** [new ethers.FallbackProvider(providers, network)]: the endpoints and
    the network the constructor is given; no threshold is passed. *)
Record FallbackProvider := {
  providers : list JsonRpcProvider;
  fallback_network : Z
}.

Record Wallet := {
  privateKey : string;
  address : Address;
  wallet_provider : option FallbackProvider
}.

Inductive Error :=
| JsError (message : string)
| TypeError (message : string).

Definition error_message (e : Error) : string :=
  match e with
  | JsError m => m
  | TypeError m => m
  end.

Definition SigningUnavailable : Error :=
  JsError "Private key not set. Cannot perform real transaction.".
Definition InsufficientFunds : Error :=
  JsError "Insufficient ETH balance in Treasury to cover aggregated transfer value.".
Definition NullProvider : Error :=
  TypeError "Cannot read properties of null".
Definition UndefinedStrategy : Error :=
  TypeError "Cannot read properties of undefined (reading 'profitCheck')".

Record FeeData := {
  maxFeePerGas : option Z;
  maxPriorityFeePerGas : option Z
}.

Record TxRequest := {
  to : Address;
  value : Z;
  gasLimit : Z;
  tx_maxFeePerGas : option Z;
  tx_maxPriorityFeePerGas : option Z
}.

Record TxResponse := {
  hash : string;
  tx_from : Address;
  request : TxRequest
}.

Record Receipt := {
  blockNumber : Z
}.

(** The objects [executeStrategyTrade] returns (lines 160, 164-169, 191,
    212-225, 229-235).  Amounts are kept in wei, resp. USD, where the
    source prints them with [toFixed]. *)
Inductive TradeResult :=
| KeyNotSet
| NeedsFunding (treasuryBalance : Z) (minRequired : Z) (treasuryWallet : Address)
| NoProfitablePath
| Deposited (profitablePaths : nat) (aggregatedProfitUSD : Z)
            (aggregatedProfitETH : Z) (depositRecipient : Address)
            (txHash : string) (block : Z)
| DepositFailed (error : string) (aggregatedProfitETH : Z).

(** the [error] field, which the manual trigger tests (line 298) *)
Definition result_error (r : TradeResult) : option string :=
  match r with
  | KeyNotSet => Some "Treasury private key not set. Cannot execute real transactions."
  | NeedsFunding _ _ _ => Some "Treasury needs gas funding"
  | NoProfitablePath => None
  | Deposited _ _ _ _ _ _ => None
  | DepositFailed msg _ => Some msg
  end.

(** the [success] field; absent from the two early error objects *)
Definition result_success (r : TradeResult) : option bool :=
  match r with
  | KeyNotSet => None
  | NeedsFunding _ _ _ => None
  | NoProfitablePath => Some false
  | Deposited _ _ _ _ _ _ => Some true
  | DepositFailed _ _ => Some false
  end.

(** The values [lastExecutionResult] can be compared with: [null], a
    result object, or an object [{ result, timestamp }]. *)
Inductive JsValue :=
| Null
| Payload (r : TradeResult)
| Stamped (result : JsValue) (timestamp : Z).

(** ** Module-level variables (lines 67-72) *)

Record Globals := {
  provider : option FallbackProvider;
  signer : option Wallet;
  lastExecutionResult : JsValue;
  monitorStatus : string;
  totalStrategiesExecuted : Z;
  totalRealizedToTreasury : Z
}.

Definition initial_globals : Globals :=
  {| provider := None;
     signer := None;
     lastExecutionResult := Null;
     monitorStatus := "initializing";
     totalStrategiesExecuted := 0;
     totalRealizedToTreasury := 0 |}.

Definition set_provider (v : option FallbackProvider) (g : Globals) : Globals :=
  {| provider := v; signer := signer g;
     lastExecutionResult := lastExecutionResult g;
     monitorStatus := monitorStatus g;
     totalStrategiesExecuted := totalStrategiesExecuted g;
     totalRealizedToTreasury := totalRealizedToTreasury g |}.

Definition set_signer (v : option Wallet) (g : Globals) : Globals :=
  {| provider := provider g; signer := v;
     lastExecutionResult := lastExecutionResult g;
     monitorStatus := monitorStatus g;
     totalStrategiesExecuted := totalStrategiesExecuted g;
     totalRealizedToTreasury := totalRealizedToTreasury g |}.

Definition set_lastExecutionResult (v : JsValue) (g : Globals) : Globals :=
  {| provider := provider g; signer := signer g;
     lastExecutionResult := v;
     monitorStatus := monitorStatus g;
     totalStrategiesExecuted := totalStrategiesExecuted g;
     totalRealizedToTreasury := totalRealizedToTreasury g |}.

Definition set_monitorStatus (v : string) (g : Globals) : Globals :=
  {| provider := provider g; signer := signer g;
     lastExecutionResult := lastExecutionResult g;
     monitorStatus := v;
     totalStrategiesExecuted := totalStrategiesExecuted g;
     totalRealizedToTreasury := totalRealizedToTreasury g |}.

Definition set_totalStrategiesExecuted (v : Z) (g : Globals) : Globals :=
  {| provider := provider g; signer := signer g;
     lastExecutionResult := lastExecutionResult g;
     monitorStatus := monitorStatus g;
     totalStrategiesExecuted := v;
     totalRealizedToTreasury := totalRealizedToTreasury g |}.

Definition set_totalRealizedToTreasury (v : Z) (g : Globals) : Globals :=
  {| provider := provider g; signer := signer g;
     lastExecutionResult := lastExecutionResult g;
     monitorStatus := monitorStatus g;
     totalStrategiesExecuted := totalStrategiesExecuted g;
     totalRealizedToTreasury := v |}.

(** ** Network requests and replies

    One constructor per call the source awaits on the ethers objects.
    [ReqWait] records the two optional arguments of [tx.wait]. *)

Inductive Request :=
| ReqBlockNumber (p : FallbackProvider)
| ReqBalance (p : FallbackProvider) (a : Address)
| ReqFeeData (p : FallbackProvider)
| ReqSendTransaction (w : Wallet) (t : TxRequest)
| ReqWait (t : TxResponse) (confirms : option Z) (timeout : option Z).

Inductive Response :=
| RespBlockNumber (n : Z)
| RespBalance (wei : Z)
| RespFeeData (f : FeeData)
| RespTx (t : TxResponse)
| RespReceipt (r : Receipt)
| RespError (e : Error).

(** What a call-count assertion counts: network requests issued, and entries
    into [transferEth]. *)
Inductive Event :=
| Issued (r : Request)
| TransferCalled (amount : Z) (recipient : Address).

(** ** Programs

    A program either finishes, throws, touches the module-level
    variables, reads the clock, reports an event, or waits for the
    network and continues with the reply. *)

Inductive Prog (A : Type) : Type :=
| Ret (a : A)
| Throw (e : Error)
| Read (k : Globals -> Prog A)
| Update (f : Globals -> Globals) (k : Prog A)
| Now (k : Z -> Prog A)
| Mark (ev : Event) (k : Prog A)
| Await (r : Request) (k : Response -> Prog A).

Arguments Ret {A} a.
Arguments Throw {A} e.
Arguments Read {A} k.
Arguments Update {A} f k.
Arguments Now {A} k.
Arguments Mark {A} ev k.
Arguments Await {A} r k.

Fixpoint bind {A B : Type} (p : Prog A) (f : A -> Prog B) : Prog B :=
  match p with
  | Ret a => f a
  | Throw e => Throw e
  | Read k => Read (fun g => bind (k g) f)
  | Update u k => Update u (bind k f)
  | Now k => Now (fun t => bind (k t) f)
  | Mark ev k => Mark ev (bind k f)
  | Await r k => Await r (fun x => bind (k x) f)
  end.

(** [try { p } catch (e) { h e }] *)
Fixpoint try_catch {A : Type} (p : Prog A) (h : Error -> Prog A) : Prog A :=
  match p with
  | Ret a => Ret a
  | Throw e => h e
  | Read k => Read (fun g => try_catch (k g) h)
  | Update u k => Update u (try_catch k h)
  | Now k => Now (fun t => try_catch (k t) h)
  | Mark ev k => Mark ev (try_catch k h)
  | Await r k => Await r (fun x => try_catch (k x) h)
  end.

(** [try { p } finally { f }]: [f] runs on both exits and the exit of
    [p] is kept. *)
Fixpoint finally {A : Type} (p : Prog A) (f : Prog unit) : Prog A :=
  match p with
  | Ret a => bind f (fun _ => Ret a)
  | Throw e => bind f (fun _ => Throw e)
  | Read k => Read (fun g => finally (k g) f)
  | Update u k => Update u (finally k f)
  | Now k => Now (fun t => finally (k t) f)
  | Mark ev k => Mark ev (finally k f)
  | Await r k => Await r (fun x => finally (k x) f)
  end.

Declare Scope prog_scope.
Delimit Scope prog_scope with prog.
Notation "x <- p ;; q" := (bind p (fun x => q))
  (at level 61, p at next level, right associativity) : prog_scope.
Notation "' pat <- p ;; q" := (bind p (fun x => match x with pat => q end))
  (at level 61, pat pattern, p at next level, right associativity) : prog_scope.
Notation "p ;; q" := (bind p (fun _ => q))
  (at level 61, right associativity) : prog_scope.
Open Scope prog_scope.

Definition get : Prog Globals := Read (fun g => Ret g).
Definition modify (f : Globals -> Globals) : Prog unit := Update f (Ret tt).
Definition clock : Prog Z := Now (fun t => Ret t).
Definition mark (ev : Event) : Prog unit := Mark ev (Ret tt).
Definition await (r : Request) : Prog Response := Await r (fun x => Ret x).

(** A reply of the wrong shape settles the awaited promise as a rejection. *)
Definition UnexpectedReply : Error := JsError "unexpected reply".

Definition getBlockNumber (p : FallbackProvider) : Prog Z :=
  x <- await (ReqBlockNumber p) ;;
  match x with
  | RespBlockNumber n => Ret n
  | RespError e => Throw e
  | _ => Throw UnexpectedReply
  end.

Definition getBalance (p : FallbackProvider) (a : Address) : Prog Z :=
  x <- await (ReqBalance p a) ;;
  match x with
  | RespBalance wei => Ret wei
  | RespError e => Throw e
  | _ => Throw UnexpectedReply
  end.

Definition getFeeData (p : FallbackProvider) : Prog FeeData :=
  x <- await (ReqFeeData p) ;;
  match x with
  | RespFeeData f => Ret f
  | RespError e => Throw e
  | _ => Throw UnexpectedReply
  end.

Definition sendTransaction (w : Wallet) (t : TxRequest) : Prog TxResponse :=
  x <- await (ReqSendTransaction w t) ;;
  match x with
  | RespTx r => Ret r
  | RespError e => Throw e
  | _ => Throw UnexpectedReply
  end.

(** [tx.wait(confirms, timeout)] *)
Definition wait (t : TxResponse) (confirms timeout : option Z) : Prog Receipt :=
  x <- await (ReqWait t confirms timeout) ;;
  match x with
  | RespReceipt r => Ret r
  | RespError e => Throw e
  | _ => Throw UnexpectedReply
  end.

(** Member access on a module-level variable that may hold [null]. *)
Definition deref {T : Type} (v : option T) : Prog T :=
  match v with
  | Some x => Ret x
  | None => Throw NullProvider
  end.

Definition is_null {T : Type} (v : option T) : bool :=
  match v with
  | Some _ => false
  | None => true
  end.

(** ** The functions of server.js *)

Section Program.

Variable env : Env.

(** [new ethers.Wallet(PRIVATE_KEY, provider)] *)
Definition new_Wallet (key : string) (p : option FallbackProvider) : Prog Wallet :=
  match Wallet_address env key with
  | Some a => Ret {| privateKey := key; address := a; wallet_provider := p |}
  | None => Throw (TypeError "invalid private key")
  end.

(** lines 78-105 *)
Definition initProvider : Prog bool :=
  modify (set_monitorStatus "connecting") ;;
  try_catch
    (let providers :=
       map (fun u => {| url := u; network := "mainnet" |}) (RPC_URLS env) in
     let fallbackProvider :=
       {| providers := providers; fallback_network := 1 |} in
     _ <- getBlockNumber fallbackProvider ;;
     modify (set_provider (Some fallbackProvider)) ;;
     modify (set_monitorStatus "connected") ;;
     match PRIVATE_KEY env with
     | Some key =>
         g <- get ;;
         w <- new_Wallet key (provider g) ;;
         modify (set_signer (Some w))
     | None => Ret tt
     end ;;
     Ret true)
    (fun _ =>
       modify (set_provider None) ;;
       modify (set_signer None) ;;
       modify (set_monitorStatus "disconnected") ;;
       Ret false).

(** lines 111-120 *)
Definition getTreasuryBalance : Prog Z :=
  try_catch
    (g <- get ;;
     (if is_null (provider g) || is_null (signer g)
      then _ <- initProvider ;; Ret tt
      else Ret tt) ;;
     g <- get ;;
     match signer g with
     | None => Ret 0
     | Some w =>
         p <- deref (provider g) ;;
         bal <- getBalance p (address w) ;;
         Ret bal
     end)
    (fun _ => Ret 0).

(** lines 126-149; [amountETH] is given in wei, which is what
    [ethers.parseEther(amountETH.toFixed(18))] makes of it. *)
Definition transferEth (amountETH : Z) (recipient : Address)
  : Prog (TxResponse * Receipt) :=
  mark (TransferCalled amountETH recipient) ;;
  g <- get ;;
  if is_null (signer g) then Throw SigningUnavailable else
  let value := amountETH in
  p <- deref (provider g) ;;
  w <- deref (signer g) ;;
  balance <- getBalance p (address w) ;;
  if balance <? value then Throw InsufficientFunds else
  g <- get ;;
  p <- deref (provider g) ;;
  feeData <- getFeeData p ;;
  g <- get ;;
  w <- deref (signer g) ;;
  tx <- sendTransaction w
          {| to := recipient;
             value := value;
             gasLimit := 25000;
             tx_maxFeePerGas := maxFeePerGas feeData;
             tx_maxPriorityFeePerGas := maxPriorityFeePerGas feeData |} ;;
  receipt <- wait tx None None ;;
  Ret (tx, receipt).

(** lines 173-184: the [for] loop, [n] iterations from index [i] on. *)
Fixpoint search (n i : nat) (profitableStrategies : nat)
  (strategyIdsExecuted : list Z) : Prog (nat * list Z) :=
  match n with
  | O => Ret (profitableStrategies, strategyIdsExecuted)
  | S n' =>
      match nth_error (STRATEGIES env) i with
      | None => Throw UndefinedStrategy
      | Some strategy =>
          let acc :=
            if profitCheck strategy
            then (S profitableStrategies, (strategyIdsExecuted ++ [id strategy])%list)
            else (profitableStrategies, strategyIdsExecuted) in
          modify (fun g =>
            set_totalStrategiesExecuted (totalStrategiesExecuted g + 1) g) ;;
          search n' (S i) (fst acc) (snd acc)
      end
  end.

(** lines 236-241 *)
Definition record_last_execution : Prog unit :=
  now <- clock ;;
  modify (fun g =>
    set_lastExecutionResult (Stamped (lastExecutionResult g) now) g).

(** lines 186-187 and 194-241: the [try] / [catch] / [finally] block,
    entered with the number of profitable paths found. *)
Definition deposit (profitableStrategies : nat) : Prog TradeResult :=
  let profitETH := AGGREGATE_PROFIT_ETH in
  let profitUSD := AGGREGATE_PROFIT_USD in
  finally
    (try_catch
       (g <- get ;;
        w <- deref (signer g) ;;
        ' (tx, receipt) <- transferEth profitETH (address w) ;;
        modify (fun g =>
          set_totalRealizedToTreasury
            (totalRealizedToTreasury g + profitUSD) g) ;;
        g <- get ;;
        w <- deref (signer g) ;;
        Ret (Deposited profitableStrategies profitUSD profitETH
               (address w) (hash tx) (blockNumber receipt)))
       (fun error =>
          Ret (DepositFailed (error_message error) profitETH)))
    record_last_execution.

(** lines 158-242: [executeStrategyTrade] once [getTreasuryBalance] has
    returned [balance]. *)
Definition settle (balance : Z) : Prog TradeResult :=
  g <- get ;;
  match signer g with
  | None => Ret KeyNotSet
  | Some w =>
      if balance <? MIN_GAS_ETH
      then Ret (NeedsFunding balance MIN_GAS_ETH (address w))
      else
        ' (profitableStrategies, _) <- search STRATEGIES_PER_EXECUTION 0 0 [] ;;
        if Nat.eqb profitableStrategies 0
        then Ret NoProfitablePath
        else deposit profitableStrategies
  end.

(** lines 155-242 *)
Definition executeStrategyTrade : Prog TradeResult :=
  balance <- getTreasuryBalance ;;
  settle balance.

(** The body [/status] answers with (lines 269-289), without its
    constant fields. *)
Record StatusSnapshot := {
  status : string;
  blockchainConnection : string;
  treasuryWallet : Address;
  treasuryBalance : Z;
  totalRealizedToTreasuryUSD : Z;
  status_totalStrategiesExecuted : Z;
  status_lastExecutionResult : JsValue;
  status_timestamp : Z
}.

(** lines 272-288: the answer, once the balance is known *)
Definition status_body (balance : Z) : Prog StatusSnapshot :=
  g <- get ;;
  now <- clock ;;
  Ret {| status := monitorStatus g;
         blockchainConnection :=
           if is_null (provider g) then "disconnected" else "robust_connected";
         treasuryWallet :=
           match signer g with
           | Some w => address w
           | None => TREASURY_WALLET_ADDRESS
           end;
         treasuryBalance := balance;
         totalRealizedToTreasuryUSD := totalRealizedToTreasury g;
         status_totalStrategiesExecuted := totalStrategiesExecuted g;
         status_lastExecutionResult := lastExecutionResult g;
         status_timestamp := now |}.

Definition status_handler : Prog StatusSnapshot :=
  balance <- getTreasuryBalance ;;
  status_body balance.

(** [/execute-arbitrage] (lines 295-303): the HTTP status and the body. *)
Definition execute_arbitrage_handler : Prog (Z * TradeResult) :=
  result <- executeStrategyTrade ;;
  match result_error result with
  | None | Some "" => Ret (200, result)
  | Some _ => Ret (400, result)
  end.

End Program.

Arguments MIN_GAS_ETH : simpl never.
Arguments AGGREGATE_PROFIT_ETH : simpl never.
Arguments AGGREGATE_PROFIT_USD : simpl never.
Arguments search env n i profitableStrategies strategyIdsExecuted : simpl never.
Arguments settle env balance : simpl never.
Arguments deposit profitableStrategies : simpl never.

(** ** Running a program

    [advance] runs a program up to its next network wait; [run] feeds it
    the replies of the network, each with the time at which it arrives. *)

Inductive Paused (A : Type) : Type :=
| Finished (a : A)
| Raised (e : Error)
| Suspended (r : Request) (k : Response -> Prog A).

Arguments Finished {A} a.
Arguments Raised {A} e.
Arguments Suspended {A} r k.

Record Segment (A : Type) := {
  seg_globals : Globals;
  seg_events : list Event;
  seg_paused : Paused A
}.

Arguments seg_globals {A} s.
Arguments seg_events {A} s.
Arguments seg_paused {A} s.

Definition emit {A : Type} (ev : Event) (s : Segment A) : Segment A :=
  {| seg_globals := seg_globals s;
     seg_events := ev :: seg_events s;
     seg_paused := seg_paused s |}.

Fixpoint advance {A : Type} (p : Prog A) (now : Z) (g : Globals) : Segment A :=
  match p with
  | Ret a => {| seg_globals := g; seg_events := []; seg_paused := Finished a |}
  | Throw e => {| seg_globals := g; seg_events := []; seg_paused := Raised e |}
  | Read k => advance (k g) now g
  | Update f k => advance k now (f g)
  | Now k => advance (k now) now g
  | Mark ev k => emit ev (advance k now g)
  | Await r k =>
      {| seg_globals := g; seg_events := [Issued r]; seg_paused := Suspended r k |}
  end.

Record Reply := {
  arrival : Z;
  response : Response
}.

Inductive Outcome (A : Type) : Type :=
| Returned (a : A)
| Threw (e : Error)
| Pending (r : Request).

Arguments Returned {A} a.
Arguments Threw {A} e.
Arguments Pending {A} r.

Record Run (A : Type) := {
  final : Globals;
  outcome : Outcome A;
  trace : list Event;
  finished_at : Z;
  unread : list Reply
}.

Arguments final {A} r.
Arguments outcome {A} r.
Arguments trace {A} r.
Arguments finished_at {A} r.
Arguments unread {A} r.

Definition prepend {A : Type} (evs : list Event) (r : Run A) : Run A :=
  {| final := final r;
     outcome := outcome r;
     trace := (evs ++ trace r)%list;
     finished_at := finished_at r;
     unread := unread r |}.

Fixpoint resume {A : Type} (replies : list Reply) (now : Z) (g : Globals)
  (s : Paused A) {struct replies} : Run A :=
  match s with
  | Finished a =>
      {| final := g; outcome := Returned a; trace := [];
         finished_at := now; unread := replies |}
  | Raised e =>
      {| final := g; outcome := Threw e; trace := [];
         finished_at := now; unread := replies |}
  | Suspended r k =>
      match replies with
      | [] =>
          {| final := g; outcome := Pending r; trace := [];
             finished_at := now; unread := [] |}
      | rep :: rest =>
          let seg := advance (k (response rep)) (arrival rep) g in
          prepend (seg_events seg)
            (resume rest (arrival rep) (seg_globals seg) (seg_paused seg))
      end
  end.

Definition run {A : Type} (p : Prog A) (now : Z) (g : Globals)
  (replies : list Reply) : Run A :=
  let seg := advance p now g in
  prepend (seg_events seg) (resume replies now (seg_globals seg) (seg_paused seg)).

(** Number of calls of [transferEth] in a trace. *)
Definition is_transfer (ev : Event) : bool :=
  match ev with
  | TransferCalled _ _ => true
  | Issued _ => false
  end.

Definition transfers (tr : list Event) : list Event := filter is_transfer tr.

(** Requests that come after the local checks of [transferEth]. *)
Definition is_submission (ev : Event) : bool :=
  match ev with
  | Issued (ReqFeeData _) => true
  | Issued (ReqSendTransaction _ _) => true
  | Issued (ReqWait _ _ _) => true
  | _ => false
  end.

(** ** The scheduler: overlapping ticks

    [startAutoTrader] (lines 248-253) calls [executeStrategyTrade] once
    and hands it to [setInterval]; [/execute-arbitrage] (lines 295-303)
    calls it from the request handler.  A call that reaches a network
    wait stays in flight until its reply is delivered. *)

Inductive Completion :=
| TickDone (r : TradeResult)
| HttpReply (code : Z) (body : TradeResult).

Record Task := {
  awaiting : Request;
  continuation : Response -> Prog Completion
}.

Record System := {
  globals : Globals;
  in_flight : list Task;
  completed : list (Outcome Completion);
  issued : list Event
}.

Inductive Trigger :=
| TimerFired
| ManualTrigger
| Delivered (i : nat) (x : Response).

Definition timer_callback (env : Env) : Prog Completion :=
  r <- executeStrategyTrade env ;; Ret (TickDone r).

Definition manual_callback (env : Env) : Prog Completion :=
  ' (code, r) <- execute_arbitrage_handler env ;; Ret (HttpReply code r).

Definition remove_nth {T : Type} (i : nat) (l : list T) : list T :=
  (firstn i l ++ skipn (S i) l)%list.

(** Book-keeping after a segment of a task has run: a task that
    suspended again joins the end of the queue. *)
Definition settle_segment (s : System) (others : list Task)
  (seg : Segment Completion) : System :=
  match seg_paused seg with
  | Finished a =>
      {| globals := seg_globals seg; in_flight := others;
         completed := (completed s ++ [Returned a])%list;
         issued := (issued s ++ seg_events seg)%list |}
  | Raised e =>
      {| globals := seg_globals seg; in_flight := others;
         completed := (completed s ++ [Threw e])%list;
         issued := (issued s ++ seg_events seg)%list |}
  | Suspended r k =>
      {| globals := seg_globals seg;
         in_flight := (others ++ [{| awaiting := r; continuation := k |}])%list;
         completed := completed s;
         issued := (issued s ++ seg_events seg)%list |}
  end.

Definition sys_step (env : Env) (now : Z) (t : Trigger) (s : System) : System :=
  match t with
  | TimerFired =>
      settle_segment s (in_flight s) (advance (timer_callback env) now (globals s))
  | ManualTrigger =>
      settle_segment s (in_flight s) (advance (manual_callback env) now (globals s))
  | Delivered i x =>
      match nth_error (in_flight s) i with
      | None => s
      | Some task =>
          settle_segment s (remove_nth i (in_flight s))
            (advance (continuation task x) now (globals s))
      end
  end.

Fixpoint sys_run (env : Env) (schedule : list (Z * Trigger)) (s : System) : System :=
  match schedule with
  | [] => s
  | (now, t) :: rest => sys_run env rest (sys_step env now t s)
  end.

Definition boot (g : Globals) : System :=
  {| globals := g; in_flight := []; completed := []; issued := [] |}.

(** ** The Quorum Client's aggregation

    The source delegates the aggregation over endpoints to
    [ethers.FallbackProvider], a dependency that is not under src/; the
    source itself passes it no threshold (line 82).  The definitions
    of this part follow spec 4.1. *)

(** Modelled from the spec: the result of a quorum read, a value or the
    NoQuorum condition (the aggregation code is not under src/). *)
Inductive ReadResult :=
| Agreed (v : Z)
| NoQuorum.

(** Modelled from the spec: the number of endpoints that reported [v]
    (the aggregation code is not under src/); [None] is an endpoint that
    did not answer within the timeout. *)
Definition agreement (v : Z) (responses : list (option Z)) : nat :=
  List.length (filter (fun r => match r with
                                | Some u => Z.eqb u v
                                | None => false
                                end) responses).

(** Modelled from the spec: the first candidate, in pool order, that at
    least Q endpoints of [all] reported (the aggregation code is not
    under src/). *)
Fixpoint first_agreed (Q : nat) (candidates all : list (option Z)) : ReadResult :=
  match candidates with
  | [] => NoQuorum
  | None :: rest => first_agreed Q rest all
  | Some v :: rest =>
      if Nat.leb Q (agreement v all) then Agreed v else first_agreed Q rest all
  end.

(** Modelled from the spec: the aggregation inside the Quorum Client,
    which the source delegates to [ethers.FallbackProvider] (a dependency,
    not under src/).  Spec 4.1: fan out to all endpoints, collect the
    responses, return the value reported by at least Q endpoints, fail
    with NoQuorum if no value reaches quorum; endpoints are taken in pool
    order, so that Q = 1 is "first successful response wins". *)
Definition quorumRead (Q : nat) (responses : list (option Z)) : ReadResult :=
  first_agreed Q responses responses.

Definition NoQuorumError : Error := JsError "NoQuorum".

(** ** The Oracle Stub, as the spec words it

    [produceBatch(size)], called afresh by each tick: the [call]-th call
    takes the next [size] draws of the random source. *)
Definition spec_produceBatch (env : Env) (size : nat) (call : nat) : list bool :=
  map (random_above env) (seq (call * size) size).

(** The signals a tick iterates over (lines 176-178): the entries of the
    module-level table, whichever tick it is. *)
Definition signals_read (env : Env) : list bool :=
  map profitCheck (firstn STRATEGIES_PER_EXECUTION (STRATEGIES env)).

Definition profitable_at_load (env : Env) : nat :=
  List.length (filter profitCheck (STRATEGIES env)).

Definition ids_at_load (env : Env) : list Z :=
  map id (filter profitCheck (STRATEGIES env)).

(** ** Sample configurations *)

Definition sample_address : Address := "0xA11CE".

(** a key is configured; the first 450 random draws pass the 0.05 test,
    the later ones do not *)
Definition env_keyed : Env :=
  {| TREASURY_PRIVATE_KEY := Some "0xkey";
     ETHERSCAN_RPC_URL := None;
     Wallet_address := fun _ => Some sample_address;
     random_above := fun i => Nat.ltb i 450 |}.

(** no key is configured *)
Definition env_keyless : Env :=
  {| TREASURY_PRIVATE_KEY := None;
     ETHERSCAN_RPC_URL := None;
     Wallet_address := fun _ => Some sample_address;
     random_above := fun i => Nat.ltb i 450 |}.

Definition sample_provider : FallbackProvider :=
  {| providers := map (fun u => {| url := u; network := "mainnet" |})
                      PUBLIC_RPC_URLS;
     fallback_network := 1 |}.

Definition sample_wallet : Wallet :=
  {| privateKey := "0xkey"; address := sample_address;
     wallet_provider := Some sample_provider |}.

(** the module-level variables once [initProvider] has succeeded *)
Definition connected_globals : Globals :=
  {| provider := Some sample_provider;
     signer := Some sample_wallet;
     lastExecutionResult := Null;
     monitorStatus := "connected";
     totalStrategiesExecuted := 0;
     totalRealizedToTreasury := 0 |}.

(** the module-level variables once [initProvider] has failed *)
Definition disconnected_globals : Globals :=
  {| provider := None;
     signer := None;
     lastExecutionResult := Null;
     monitorStatus := "disconnected";
     totalStrategiesExecuted := 0;
     totalRealizedToTreasury := 0 |}.

Definition sample_fees : FeeData :=
  {| maxFeePerGas := Some 30; maxPriorityFeePerGas := Some 2 |}.

Definition sample_tx : TxResponse :=
  {| hash := "0xabc";
     tx_from := sample_address;
     request := {| to := sample_address; value := AGGREGATE_PROFIT_ETH;
                   gasLimit := 25000;
                   tx_maxFeePerGas := Some 30;
                   tx_maxPriorityFeePerGas := Some 2 |} |}.

Definition reply_at (t : Z) (x : Response) : Reply :=
  {| arrival := t; response := x |}.

(** a network on which a tick goes through: balance 5 ETH, fees, the
    transaction accepted and mined in block 100 *)
Definition good_replies (t : Z) : list Reply :=
  [ reply_at t (RespBalance (5 * ether));
    reply_at (t + 1) (RespBalance (5 * ether));
    reply_at (t + 2) (RespFeeData sample_fees);
    reply_at (t + 3) (RespTx sample_tx);
    reply_at (t + 4) (RespReceipt {| blockNumber := 100 |}) ].

(** the same network, on which the confirmation never arrives *)
Definition unconfirmed_replies (t : Z) : list Reply :=
  [ reply_at t (RespBalance (5 * ether));
    reply_at (t + 1) (RespBalance (5 * ether));
    reply_at (t + 2) (RespFeeData sample_fees);
    reply_at (t + 3) (RespTx sample_tx) ].

(** one of the replies is a rejection *)
Definition rejected (replies : list Reply) : bool :=
  existsb (fun rep => match response rep with
                      | RespError _ => true
                      | _ => false
                      end) replies.

(** ** Auxiliary definitions for the proofs *)

(** a segment followed by the rest of a sequence *)
Definition seg_then {A B : Type} (s : Segment A) (now : Z) (f : A -> Prog B)
  : Segment B :=
  match seg_paused s with
  | Finished a =>
      let s' := advance (f a) now (seg_globals s) in
      {| seg_globals := seg_globals s';
         seg_events := (seg_events s ++ seg_events s')%list;
         seg_paused := seg_paused s' |}
  | Raised e =>
      {| seg_globals := seg_globals s; seg_events := seg_events s;
         seg_paused := Raised e |}
  | Suspended r k =>
      {| seg_globals := seg_globals s; seg_events := seg_events s;
         seg_paused := Suspended r (fun x => bind (k x) f) |}
  end.

(** a run followed by the rest of a sequence *)
Definition then_run {A B : Type} (r : Run A) (f : A -> Prog B) : Run B :=
  match outcome r with
  | Returned a => prepend (trace r) (run (f a) (finished_at r) (final r) (unread r))
  | Threw e =>
      {| final := final r; outcome := Threw e; trace := trace r;
         finished_at := finished_at r; unread := unread r |}
  | Pending q =>
      {| final := final r; outcome := Pending q; trace := trace r;
         finished_at := finished_at r; unread := unread r |}
  end.

(** [n] more checks counted *)
Definition bump (n : nat) (g : Globals) : Globals :=
  set_totalStrategiesExecuted (totalStrategiesExecuted g + Z.of_nat n) g.

(** what the loop has accumulated after the entries [i .. i+n-1] *)
Definition scan (env : Env) (i n : nat) (acc : nat * list Z) : nat * list Z :=
  fold_left
    (fun a j =>
       if random_above env j
       then (S (fst a), (snd a ++ [Z.of_nat j + 1])%list)
       else a)
    (seq i n) acc.

(** the only request with a timeout parameter is [tx.wait] *)
Definition carries_timeout (ev : Event) : bool :=
  match ev with
  | Issued (ReqWait _ _ (Some _)) => true
  | _ => false
  end.

(** ** Further definitions: the rest of the module *)

(** the provider [initProvider] builds (lines 81-82) *)
Definition built_provider (env : Env) : FallbackProvider :=
  {| providers := map (fun u => {| url := u; network := "mainnet" |})
                      (RPC_URLS env);
     fallback_network := 1 |}.

(** a key is configured that [ethers.Wallet] rejects *)
Definition env_badkey : Env :=
  {| TREASURY_PRIVATE_KEY := Some "not-a-key";
     ETHERSCAN_RPC_URL := Some "https://rpc.example";
     Wallet_address := fun _ => None;
     random_above := fun i => Nat.ltb i 450 |}.

(** no random draw passes the 0.05 test *)
Definition env_unlucky : Env :=
  {| TREASURY_PRIVATE_KEY := Some "0xkey";
     ETHERSCAN_RPC_URL := None;
     Wallet_address := fun _ => Some sample_address;
     random_above := fun _ => false |}.

(** the HTTP status [/execute-arbitrage] answers with (lines 298-302):
    400 when the result has a non-empty [error] field *)
Definition arbitrage_status (r : TradeResult) : Z :=
  match result_error r with
  | None | Some "" => 200
  | Some _ => 400
  end.

(** What [/withdraw] answers (lines 316, 323-327, 333-342, 346); the
    field [maxWithdrawable], which the source computes in floating
    point, is left out. *)
Inductive WithdrawReply :=
| WithdrawKeyNotSet
| WithdrawInvalid (treasuryBalance : Z)
| WithdrawDone (txHash : string) (amount : Z) (from : Address) (to : Address)
               (block : Z)
| WithdrawError (message : string).

Definition withdraw_status (r : WithdrawReply) : Z :=
  match r with
  | WithdrawKeyNotSet => 400
  | WithdrawInvalid _ => 400
  | WithdrawDone _ _ _ _ _ => 200
  | WithdrawError _ => 500
  end.

(** [/withdraw] (lines 310-348), from the parsed amount on.  The amount
    is given in wei, as for [transferEth].  [invalid ethAmount balance]
    stands for the floating-point test
    [ethAmount <= 0 || ethAmount > balance - 0.003] of line 322, which is
    kept abstract. *)
Definition withdraw_handler (env : Env) (invalid : Z -> Z -> bool)
  (ethAmount : Z) : Prog WithdrawReply :=
  try_catch
    (g <- get ;;
     if is_null (signer g) then Ret WithdrawKeyNotSet else
     balance <- getTreasuryBalance env ;;
     if invalid ethAmount balance then Ret (WithdrawInvalid balance) else
     ' (tx, receipt) <- transferEth ethAmount COINBASE_WALLET ;;
     g <- get ;;
     w <- deref (signer g) ;;
     Ret (WithdrawDone (hash tx) ethAmount (address w) COINBASE_WALLET
            (blockNumber receipt)))
    (fun error => Ret (WithdrawError (error_message error))).

(** lines 355-361: connect, then start the timer loop whatever the
    connection attempt returned; the first tick is started at once
    (line 251). *)
Definition startup (env : Env) : Prog Completion :=
  _ <- initProvider env ;;
  timer_callback env.

(** ** Relations the assignments of the module keep

    [respects R p]: every assignment [p] can make, at whatever point and
    on whatever replies, takes a state to an [R]-related one. *)
Fixpoint respects {A : Type} (R : Globals -> Globals -> Prop) (p : Prog A)
  : Prop :=
  match p with
  | Ret _ => True
  | Throw _ => True
  | Read k => forall g, respects R (k g)
  | Update f k => (forall g, R g (f g)) /\ respects R k
  | Now k => forall t, respects R (k t)
  | Mark _ k => respects R k
  | Await _ k => forall x, respects R (k x)
  end.

(** the assignments of [initProvider] *)
Definition admits_connection_updates (R : Globals -> Globals -> Prop) : Prop :=
  (forall v g, R g (set_monitorStatus v g))
  /\ (forall v g, R g (set_provider v g))
  /\ (forall v g, R g (set_signer v g)).

(** the assignments of [executeStrategyTrade] *)
Definition admits_accounting_updates (R : Globals -> Globals -> Prop) : Prop :=
  (forall g, R g (set_totalStrategiesExecuted (totalStrategiesExecuted g + 1) g))
  /\ (forall g, R g (set_totalRealizedToTreasury
                       (totalRealizedToTreasury g + AGGREGATE_PROFIT_USD) g))
  /\ (forall t g, R g (set_lastExecutionResult
                         (Stamped (lastExecutionResult g) t) g)).

Definition continuation_respects {A : Type} (R : Globals -> Globals -> Prop)
  (s : Paused A) : Prop :=
  match s with
  | Suspended _ k => forall x, respects R (k x)
  | _ => True
  end.

Definition tasks_respect (R : Globals -> Globals -> Prop) (s : System) : Prop :=
  Forall (fun task => forall x, respects R (continuation task x)) (in_flight s).

(** the counters do not decrease *)
Definition counters_le (g g' : Globals) : Prop :=
  totalStrategiesExecuted g <= totalStrategiesExecuted g'
  /\ totalRealizedToTreasury g <= totalRealizedToTreasury g'.

(** a value made of [null] and time stamps only: no result object in it *)
Fixpoint stamps_only (v : JsValue) : Prop :=
  match v with
  | Null => True
  | Payload _ => False
  | Stamped inner _ => stamps_only inner
  end.

Definition keeps_stamps_only (g g' : Globals) : Prop :=
  stamps_only (lastExecutionResult g) -> stamps_only (lastExecutionResult g').

(** how many time stamps are wrapped around the innermost value *)
Fixpoint depth (v : JsValue) : nat :=
  match v with
  | Null => O
  | Payload _ => O
  | Stamped inner _ => S (depth inner)
  end.

(** ** Invariants kept from one network wait to the next

    [wp I p Q E g]: started in state [g], [p] ends in a state with [Q]
    when it returns and with [E] when it throws; whenever it waits for
    the network it leaves a state with [I], and it may find any state
    with [I] when it resumes. *)
Fixpoint wp {A : Type} (I : Globals -> Prop) (p : Prog A)
  (Q : A -> Globals -> Prop) (E : Error -> Globals -> Prop) (g : Globals)
  : Prop :=
  match p with
  | Ret a => Q a g
  | Throw e => E e g
  | Read k => wp I (k g) Q E g
  | Update f k => wp I k Q E (f g)
  | Now k => forall t, wp I (k t) Q E g
  | Mark _ k => wp I k Q E g
  | Await _ k => I g /\ forall x g', I g' -> wp I (k x) Q E g'
  end.

(** [p] keeps [I]: at its waits and at its end *)
Definition keeps {A : Type} (I : Globals -> Prop) (p : Prog A) : Prop :=
  forall g, I g -> wp I p (fun _ g' => I g') (fun _ g' => I g') g.

Definition tasks_keep (I : Globals -> Prop) (s : System) : Prop :=
  Forall (fun task => forall x, keeps I (continuation task x)) (in_flight s).

Definition paused_keeps {A : Type} (I : Globals -> Prop) (seg : Segment A)
  : Prop :=
  I (seg_globals seg)
  /\ match seg_paused seg with
     | Suspended _ k => forall x, keeps I (k x)
     | _ => True
     end.

(** the connection variables agree with one another *)
Definition connection_consistent (g : Globals) : Prop :=
  (signer g <> None -> provider g <> None)
  /\ (monitorStatus g = "connected" -> provider g <> None)
  /\ (monitorStatus g = "disconnected" -> provider g = None /\ signer g = None)
  /\ In (monitorStatus g)
        ["initializing"; "connecting"; "connected"; "disconnected"].

Definition same_connection (g g' : Globals) : Prop :=
  provider g' = provider g /\ signer g' = signer g
  /\ monitorStatus g' = monitorStatus g.

(** [p] cannot end in an exception outside a handler *)
Fixpoint nothrow {A : Type} (p : Prog A) : Prop :=
  match p with
  | Ret _ => True
  | Throw _ => False
  | Read k => forall g, nothrow (k g)
  | Update _ k => nothrow k
  | Now k => forall t, nothrow (k t)
  | Mark _ k => nothrow k
  | Await _ k => forall x, nothrow (k x)
  end.

Definition is_thrown {A : Type} (o : Outcome A) : bool :=
  match o with
  | Threw _ => true
  | _ => false
  end.

(** no task in flight can reject and no completed one has *)
Definition quiet (s : System) : Prop :=
  Forall (fun task => forall x, nothrow (continuation task x)) (in_flight s)
  /\ existsb is_thrown (completed s) = false.

(** * Properties *)

(** ** Sequencing *)

Lemma advance_bind {A B : Type} (p : Prog A) (f : A -> Prog B) now g :
  advance (bind p f) now g = seg_then (advance p now g) now f.
Proof.
  revert g.
  induction p as [a | e | k IH | u k IH | k IH | ev k IH | r k IH]; intro g;
    simpl.
  - unfold seg_then; simpl. now destruct (advance (f a) now g).
  - reflexivity.
  - apply IH.
  - apply IH.
  - apply IH.
  - rewrite IH. unfold seg_then, emit.
    destruct (advance k now g) as [g' evs [a | e | r k']]; reflexivity.
  - reflexivity.
Qed.

Lemma prepend_prepend {A : Type} (e1 e2 : list Event) (r : Run A) :
  prepend e1 (prepend e2 r) = prepend (e1 ++ e2) r.
Proof. unfold prepend; simpl. now rewrite app_assoc. Qed.

Lemma then_run_prepend {A B : Type} (evs : list Event) (r : Run A)
  (f : A -> Prog B) :
  then_run (prepend evs r) f = prepend evs (then_run r f).
Proof.
  unfold then_run; simpl.
  destruct (outcome r); simpl.
  - now rewrite prepend_prepend.
  - reflexivity.
  - reflexivity.
Qed.

Lemma resume_finished {A : Type} (replies : list Reply) now g (a : A) :
  resume replies now g (Finished a)
  = {| final := g; outcome := Returned a; trace := [];
       finished_at := now; unread := replies |}.
Proof. now destruct replies. Qed.

Lemma resume_raised {A : Type} (replies : list Reply) now g e :
  resume replies now g (@Raised A e)
  = {| final := g; outcome := Threw e; trace := [];
       finished_at := now; unread := replies |}.
Proof. now destruct replies. Qed.

Lemma resume_bind {A B : Type} (f : A -> Prog B) (replies : list Reply) :
  forall now g r (k : Response -> Prog A),
    resume replies now g (Suspended r (fun x => bind (k x) f))
    = then_run (resume replies now g (Suspended r k)) f.
Proof.
  induction replies as [| rep rest IH]; intros now g r k; simpl.
  - reflexivity.
  - rewrite advance_bind, then_run_prepend.
    destruct (advance (k (response rep)) (arrival rep) g) as [g' evs s].
    unfold seg_then; simpl.
    destruct s as [a | e | r' k']; simpl.
    + rewrite resume_finished. unfold then_run, run, prepend; simpl.
      now rewrite app_assoc.
    + now rewrite !resume_raised.
    + now rewrite IH.
Qed.

Lemma run_bind {A B : Type} (p : Prog A) (f : A -> Prog B) now g replies :
  run (bind p f) now g replies = then_run (run p now g replies) f.
Proof.
  unfold run. rewrite advance_bind, then_run_prepend.
  destruct (advance p now g) as [g' evs s].
  unfold seg_then; simpl.
  destruct s as [a | e | r k]; simpl.
  - rewrite resume_finished. unfold then_run, run, prepend; simpl.
    now rewrite app_assoc.
  - now rewrite !resume_raised.
  - now rewrite resume_bind.
Qed.

(** ** The search loop *)

Lemma STRATEGIES_length env : List.length (STRATEGIES env) = 450%nat.
Proof. unfold STRATEGIES. now rewrite length_map, length_seq. Qed.

Lemma STRATEGIES_nth env i :
  (i < 450)%nat -> nth_error (STRATEGIES env) i = Some (make_strategy env i).
Proof.
  intro H. unfold STRATEGIES.
  rewrite nth_error_map, nth_error_nth' with (d := O).
  - rewrite seq_nth by exact H. reflexivity.
  - now rewrite length_seq.
Qed.

Lemma advance_search {B : Type} env (f : nat * list Z -> Prog B) now :
  forall n i count ids g,
    (i + n <= 450)%nat ->
    advance (bind (search env n i count ids) f) now g
    = advance (f (scan env i n (count, ids))) now (bump n g).
Proof.
  induction n as [| n IH]; intros i count ids g Hle.
  - unfold search, scan, bump; simpl.
    replace (set_totalStrategiesExecuted (totalStrategiesExecuted g + 0) g)
      with g; [reflexivity |].
    destruct g; unfold set_totalStrategiesExecuted; simpl.
    now rewrite Z.add_0_r.
  - unfold search; fold search.
    rewrite STRATEGIES_nth by lia.
    cbn [bind modify advance make_strategy profitCheck id].
    rewrite IH by lia.
    unfold scan; cbn [seq fold_left].
    replace (bump n (set_totalStrategiesExecuted (totalStrategiesExecuted g + 1) g))
      with (bump (S n) g).
    + destruct (random_above env i); reflexivity.
    + destruct g; unfold bump, set_totalStrategiesExecuted; simpl.
      f_equal. lia.
Qed.

(** ** The balance helper *)

(** Symbolic execution of a program on a reply list of unknown length:
    split the module-level variables, the configuration and as many
    replies as the program can consume. *)
Ltac split_globals g :=
  let p := fresh "p" in
  let w := fresh "w" in
  destruct g as [[p |] [w |] ? ? ? ?].

Ltac split_env env :=
  let key := fresh "key" in
  destruct (PRIVATE_KEY env) as [key |]; simpl;
  try (destruct (Wallet_address env key); simpl).

Ltac split_reply replies :=
  let t := fresh "t" in
  let rest := fresh "rest" in
  destruct replies as [| [t [? | ? | ? | ? | ? | ?]] rest]; simpl.

Lemma MIN_GAS_ETH_positive : (0 <? MIN_GAS_ETH) = true.
Proof. reflexivity. Qed.

Lemma getTreasuryBalance_never_throws env now g replies e :
  outcome (run (getTreasuryBalance env) now g replies) <> Threw e.
Proof.
  split_globals g;
    unfold run, getTreasuryBalance, initProvider, new_Wallet; simpl.
  all: split_env env.
  all: split_reply replies; try discriminate.
  all: split_reply rest; try discriminate.
  all: destruct rest0; discriminate.
Qed.

Lemma getTreasuryBalance_returns env now g replies :
  (2 <= List.length replies)%nat ->
  exists v, outcome (run (getTreasuryBalance env) now g replies) = Returned v.
Proof.
  intro Hlen.
  split_globals g;
    unfold run, getTreasuryBalance, initProvider, new_Wallet; simpl.
  all: split_env env.
  all: split_reply replies; try (simpl in Hlen; lia); eauto.
  all: split_reply rest; try (simpl in Hlen; lia); eauto.
  all: destruct rest0; simpl; eauto.
Qed.

Lemma getTreasuryBalance_no_signer env now g replies v :
  outcome (run (getTreasuryBalance env) now g replies) = Returned v ->
  signer (final (run (getTreasuryBalance env) now g replies)) = None ->
  v = 0.
Proof.
  split_globals g;
    unfold run, getTreasuryBalance, initProvider, new_Wallet; simpl.
  all: split_env env.
  all: split_reply replies; try discriminate.
  all: try (split_reply rest; try discriminate).
  all: try (destruct rest0; simpl).
  all: intros H1 H2; try discriminate; congruence.
Qed.

(** a program that finishes without waiting *)
Lemma run_finished {A : Type} (p : Prog A) now g replies g' evs a :
  advance p now g
  = {| seg_globals := g'; seg_events := evs; seg_paused := Finished a |} ->
  run p now g replies
  = {| final := g'; outcome := Returned a; trace := evs;
       finished_at := now; unread := replies |}.
Proof.
  intro H. unfold run. rewrite H; simpl. rewrite resume_finished.
  unfold prepend; simpl. now rewrite app_nil_r.
Qed.

Lemma advance_settle_no_signer env balance now g :
  signer g = None ->
  advance (settle env balance) now g
  = {| seg_globals := g; seg_events := []; seg_paused := Finished KeyNotSet |}.
Proof.
  intro Hs. unfold settle, get. cbn [bind advance]. rewrite Hs. reflexivity.
Qed.

(** what [settle] answers below the threshold when a signer is present *)
Lemma advance_settle_low env balance now g w :
  signer g = Some w -> balance < MIN_GAS_ETH ->
  advance (settle env balance) now g
  = {| seg_globals := g; seg_events := [];
       seg_paused := Finished (NeedsFunding balance MIN_GAS_ETH (address w)) |}.
Proof.
  intros Hs Hlt. unfold settle, get. cbn [bind advance]. rewrite Hs.
  apply Z.ltb_lt in Hlt. rewrite Hlt. reflexivity.
Qed.

(** a tick whose balance read leaves no signer answers "key not set" *)
Lemma tick_without_signer env now g replies v :
  outcome (run (getTreasuryBalance env) now g replies) = Returned v ->
  signer (final (run (getTreasuryBalance env) now g replies)) = None ->
  outcome (run (executeStrategyTrade env) now g replies) = Returned KeyNotSet.
Proof.
  intros Hv Hs. unfold executeStrategyTrade. rewrite run_bind.
  unfold then_run. rewrite Hv.
  rewrite (run_finished _ _ _ _ _ _ _ (advance_settle_no_signer env v _ _ Hs)).
  reflexivity.
Qed.

(** with provider and signer in place, a rejected balance read and a
    balance of zero give the same helper run *)
Lemma failed_read_is_zero env now g p w t e rest :
  provider g = Some p -> signer g = Some w ->
  run (getTreasuryBalance env) now g (reply_at t (RespError e) :: rest)
  = run (getTreasuryBalance env) now g (reply_at t (RespBalance 0) :: rest)
  /\ outcome (run (getTreasuryBalance env) now g (reply_at t (RespError e) :: rest))
     = Returned 0
  /\ final (run (getTreasuryBalance env) now g
              (reply_at t (RespError e) :: rest)) = g.
Proof.
  intros Hp Hs.
  destruct g as [pg sg ? ? ? ?]. simpl in Hp, Hs. subst pg sg.
  unfold run, getTreasuryBalance; simpl.
  rewrite !resume_finished. simpl. auto.
Qed.

(** One step of symbolic execution on an unknown reply list. *)
Ltac exec_step :=
  match goal with
  | |- context [resume _ _ _ (Finished _)] => rewrite resume_finished
  | |- context [resume _ _ _ (Raised _)] => rewrite resume_raised
  | |- context [resume ?l _ _ (Suspended _ _)] =>
      is_var l; destruct l as [| [? [? | ? | ? | ? | ? | ?]] ?]
  | |- context [if ?b <? ?c then _ else _] => destruct (b <? c)
  end; simpl.

(** what the helper leaves alone, on every run *)
Lemma getTreasuryBalance_frame env now g replies :
  let r := run (getTreasuryBalance env) now g replies in
  lastExecutionResult (final r) = lastExecutionResult g
  /\ totalStrategiesExecuted (final r) = totalStrategiesExecuted g
  /\ totalRealizedToTreasury (final r) = totalRealizedToTreasury g
  /\ transfers (trace r) = []
  /\ filter is_submission (trace r) = []
  /\ filter carries_timeout (trace r) = [].
Proof.
  split_globals g;
    unfold run, getTreasuryBalance, initProvider, new_Wallet; simpl.
  all: split_env env.
  all: repeat exec_step.
  all: repeat split; reflexivity.
Qed.

(** with provider and signer in place the helper only reads *)
Lemma getTreasuryBalance_connected env now g replies p w :
  provider g = Some p -> signer g = Some w ->
  final (run (getTreasuryBalance env) now g replies) = g.
Proof.
  intros Hp Hs. destruct g as [pg sg ? ? ? ?]. simpl in Hp, Hs. subst pg sg.
  unfold run, getTreasuryBalance; simpl.
  repeat exec_step; reflexivity.
Qed.

(** the helper always reaches a network wait before it returns *)
Lemma getTreasuryBalance_suspends env now g :
  exists g' r k,
    advance (getTreasuryBalance env) now g
    = {| seg_globals := g'; seg_events := [Issued r];
         seg_paused := Suspended r k |}.
Proof.
  split_globals g; unfold getTreasuryBalance, initProvider; simpl;
    eauto.
Qed.

(** ** The signals of a tick *)

Lemma filter_map_commute {X Y : Type} (f : Y -> bool) (h : X -> Y) (l : list X) :
  filter f (map h l) = map h (filter (fun x => f (h x)) l).
Proof.
  induction l as [| x l IH]; simpl.
  - reflexivity.
  - destruct (f (h x)); simpl; now rewrite IH.
Qed.

Lemma scan_filter env : forall n i count ids,
  scan env i n (count, ids)
  = ((count + List.length (filter (random_above env) (seq i n)))%nat,
     (ids ++ map (fun j => Z.of_nat j + 1) (filter (random_above env) (seq i n)))%list).
Proof.
  unfold scan.
  induction n as [| n IH]; intros i count ids; simpl.
  - now rewrite Nat.add_0_r, app_nil_r.
  - destruct (random_above env i); simpl.
    + rewrite IH. f_equal.
      * lia.
      * now rewrite <- app_assoc.
    + apply IH.
Qed.

Lemma scan_at_load env :
  scan env 0 STRATEGIES_PER_EXECUTION (0%nat, [])
  = (profitable_at_load env, ids_at_load env).
Proof.
  rewrite scan_filter.
  unfold profitable_at_load, ids_at_load, STRATEGIES, STRATEGIES_PER_EXECUTION.
  rewrite filter_map_commute.
  cbn [make_strategy profitCheck].
  rewrite length_map, map_map. reflexivity.
Qed.

Lemma signals_read_at_load env :
  signals_read env = map (random_above env) (seq 0 450).
Proof.
  unfold signals_read, STRATEGIES_PER_EXECUTION.
  rewrite firstn_all2 by (rewrite STRATEGIES_length; lia).
  unfold STRATEGIES. rewrite map_map. reflexivity.
Qed.

Lemma profitable_at_load_signals env :
  profitable_at_load env = List.length (filter (fun b => b) (signals_read env)).
Proof.
  rewrite signals_read_at_load, filter_map_commute, length_map.
  unfold profitable_at_load, STRATEGIES.
  now rewrite filter_map_commute, length_map.
Qed.

Lemma positive_signal_counts env :
  In true (signals_read env) -> profitable_at_load env <> 0%nat.
Proof.
  intros Hin Hz. rewrite profitable_at_load_signals in Hz.
  apply length_zero_iff_nil in Hz.
  assert (H : In true (filter (fun b => b) (signals_read env)))
    by (apply filter_In; auto).
  rewrite Hz in H. exact H.
Qed.

(** [settle] above the threshold: 450 checks counted, then either no
    profitable path or the deposit block *)
Lemma advance_settle_funded env balance now g w :
  signer g = Some w -> MIN_GAS_ETH <= balance ->
  advance (settle env balance) now g
  = advance (if Nat.eqb (profitable_at_load env) 0
             then Ret NoProfitablePath
             else deposit (profitable_at_load env))
            now (bump STRATEGIES_PER_EXECUTION g).
Proof.
  intros Hs Hge. unfold settle, get. cbn [bind advance]. rewrite Hs.
  apply Z.ltb_ge in Hge. rewrite Hge.
  rewrite advance_search by (unfold STRATEGIES_PER_EXECUTION; lia).
  now rewrite scan_at_load.
Qed.

(** ** The deposit block *)

Lemma deposit_run n now g w replies :
  signer g = Some w ->
  let r := run (deposit n) now g replies in
  transfers (trace r) = [TransferCalled AGGREGATE_PROFIT_ETH (address w)]
  /\ totalStrategiesExecuted (final r) = totalStrategiesExecuted g
  /\ (forall res, outcome r = Returned res ->
        lastExecutionResult (final r)
        = Stamped (lastExecutionResult g) (finished_at r))
  /\ (forall e, outcome r <> Threw e)
  /\ filter carries_timeout (trace r) = [].
Proof.
  intros Hs.
  destruct g as [pg sg l m c u]. simpl in Hs. subst sg.
  unfold run, deposit, transferEth, record_last_execution; simpl.
  destruct pg as [p |]; simpl.
  all: repeat exec_step.
  all: repeat split; congruence.
Qed.

(** the tick, once the balance helper has returned: its requests, then
    [settle] from the state and the replies the helper left *)
Lemma tick_after_balance env now g replies balance :
  outcome (run (getTreasuryBalance env) now g replies) = Returned balance ->
  run (executeStrategyTrade env) now g replies
  = prepend (trace (run (getTreasuryBalance env) now g replies))
      (run (settle env balance)
         (finished_at (run (getTreasuryBalance env) now g replies))
         (final (run (getTreasuryBalance env) now g replies))
         (unread (run (getTreasuryBalance env) now g replies))).
Proof.
  intro Hv. unfold executeStrategyTrade. rewrite run_bind.
  unfold then_run. now rewrite Hv.
Qed.

(** ** Claims about one tick *)

(** C5.  A call of [transferEth] with an amount above the balance the
    provider reports throws the insufficient-funds error right after the
    balance read: the trace of the call holds the entry into
    [transferEth] and the balance request only, so no fee request, no
    signed submission and no confirmation wait is issued, and the
    module-level variables are as before. *)
Theorem transfer_insufficient_funds_is_local :
  forall now g p w amount recipient balance t rest,
    provider g = Some p -> signer g = Some w -> balance < amount ->
    let r := run (transferEth amount recipient) now g
               (reply_at t (RespBalance balance) :: rest) in
    outcome r = Threw InsufficientFunds
    /\ trace r = [TransferCalled amount recipient;
                  Issued (ReqBalance p (address w))]
    /\ filter is_submission (trace r) = []
    /\ final r = g
    /\ unread r = rest.
Proof.
  intros now g p w amount recipient balance t rest Hp Hs Hlt.
  destruct g as [pg sg l m c u]. simpl in Hp, Hs. subst pg sg.
  apply Z.ltb_lt in Hlt.
  unfold run, transferEth; simpl. rewrite Hlt; simpl.
  rewrite resume_raised; simpl. repeat split.
Qed.

Lemma transfer_insufficient_funds_is_local_witness :
  outcome (run (transferEth AGGREGATE_PROFIT_ETH sample_address) 0
             connected_globals [reply_at 1 (RespBalance 5)])
  = Threw InsufficientFunds.
Proof.
  apply (transfer_insufficient_funds_is_local 0 connected_globals
           sample_provider sample_wallet AGGREGATE_PROFIT_ETH sample_address
           5 1 []).
  - reflexivity.
  - reflexivity.
  - reflexivity.
Defined.




(** C10, as the claim states it, fails at the tick level: when the
    connection attempt made during the read is rejected, the helper
    returns 0, and the tick answers "private key not set", which a tick
    that read a balance of zero does not. *)
Lemma failed_connection_is_not_needs_funding :
  outcome (run (getTreasuryBalance env_keyed) 0 initial_globals
             [reply_at 1 (RespError (JsError "all endpoints unreachable"))])
  = Returned 0
  /\ outcome (run (executeStrategyTrade env_keyed) 0 initial_globals
                [reply_at 1 (RespError (JsError "all endpoints unreachable"))])
     = Returned KeyNotSet
  /\ outcome (run (executeStrategyTrade env_keyed) 0 connected_globals
                [reply_at 1 (RespBalance 0)])
     = Returned (NeedsFunding 0 MIN_GAS_ETH sample_address).
Proof. repeat split. Qed.

(** the helper returns 0 whenever one of the replies it consumed is a
    rejection, the probe's or the balance read's *)
Lemma getTreasuryBalance_zero_on_rejection env now g replies v :
  outcome (run (getTreasuryBalance env) now g replies) = Returned v ->
  exists consumed,
    replies = (consumed ++ unread (run (getTreasuryBalance env) now g replies))%list
    /\ (rejected consumed = true -> v = 0).
Proof.
  split_globals g;
    unfold run, getTreasuryBalance, initProvider, new_Wallet; simpl.
  all: split_env env.
  all: repeat exec_step.
  all: intro Hv; try discriminate.
  all: match goal with
       | |- exists c, ?a :: ?b :: ?r = (c ++ ?r)%list /\ _ => exists [a; b]
       | |- exists c, ?a :: ?r = (c ++ ?r)%list /\ _ => exists [a]
       end.
  all: split; [reflexivity |].
  all: unfold rejected; simpl; intro Hrej; try discriminate; congruence.
Qed.

(** a tick whose balance read returned 0 with a signer in place answers
    "needs funding", whatever made the helper return 0 *)
Lemma tick_on_zero_balance env now g replies w :
  outcome (run (getTreasuryBalance env) now g replies) = Returned 0 ->
  signer (final (run (getTreasuryBalance env) now g replies)) = Some w ->
  outcome (run (executeStrategyTrade env) now g replies)
  = Returned (NeedsFunding 0 MIN_GAS_ETH (address w)).
Proof.
  intros Hv Hs.
  rewrite (tick_after_balance env now g replies 0 Hv).
  assert (Hlt : 0 < MIN_GAS_ETH) by reflexivity.
  rewrite (run_finished _ _ _ _ _ _ _
             (advance_settle_low env 0 _ _ w Hs Hlt)).
  reflexivity.
Qed.

(** C10 (amended).  For every call, in whatever state, the balance
    helper never throws and, given two replies, returns.  It returns 0
    whenever no signer is in place after its connection attempt and
    whenever one of the replies it consumed is a rejection (of the
    connection probe or of the balance read).  At the tick level: with no
    signer in place after the read the tick answers "private key not
    set"; with a signer in place a helper result of 0 is answered "needs
    funding" with balance 0, be it a rejected read or a balance of zero,
    and with provider and signer in place from the start the whole tick
    on a rejected read runs as on a balance of zero. *)
Theorem balance_helper_zero_on_failure :
  forall env now g replies,
    (forall e, outcome (run (getTreasuryBalance env) now g replies) <> Threw e)
    /\ ((2 <= List.length replies)%nat ->
        exists v, outcome (run (getTreasuryBalance env) now g replies) = Returned v)
    /\ (forall v,
          outcome (run (getTreasuryBalance env) now g replies) = Returned v ->
          exists consumed,
            replies
            = (consumed ++ unread (run (getTreasuryBalance env) now g replies))%list
            /\ (signer (final (run (getTreasuryBalance env) now g replies)) = None
                \/ rejected consumed = true -> v = 0)
            /\ (signer (final (run (getTreasuryBalance env) now g replies)) = None ->
                outcome (run (executeStrategyTrade env) now g replies)
                = Returned KeyNotSet)
            /\ (forall w,
                  signer (final (run (getTreasuryBalance env) now g replies))
                  = Some w ->
                  v = 0 ->
                  outcome (run (executeStrategyTrade env) now g replies)
                  = Returned (NeedsFunding 0 MIN_GAS_ETH (address w))))
    /\ (forall p w t e rest,
          provider g = Some p -> signer g = Some w ->
          replies = reply_at t (RespError e) :: rest ->
          outcome (run (getTreasuryBalance env) now g replies) = Returned 0
          /\ run (executeStrategyTrade env) now g replies
             = run (executeStrategyTrade env) now g
                 (reply_at t (RespBalance 0) :: rest)
          /\ outcome (run (executeStrategyTrade env) now g replies)
             = Returned (NeedsFunding 0 MIN_GAS_ETH (address w))).
Proof.
  intros env now g replies. split; [| split; [| split]].
  - intro e. apply getTreasuryBalance_never_throws.
  - apply getTreasuryBalance_returns.
  - intros v Hv.
    destruct (getTreasuryBalance_zero_on_rejection env now g replies v Hv)
      as (consumed & Hsplit & Hrej).
    exists consumed. split; [exact Hsplit | split; [| split]].
    + intros [Hs | Hr].
      * eapply getTreasuryBalance_no_signer; eassumption.
      * now apply Hrej.
    + intro Hs. eapply tick_without_signer; eassumption.
    + intros w Hs Hz. subst v. now apply tick_on_zero_balance.
  - intros p w t e rest Hp Hs ->.
    destruct (failed_read_is_zero env now g p w t e rest Hp Hs)
      as (Heq & Hv & Hf).
    split; [exact Hv | split].
    + unfold executeStrategyTrade. rewrite !run_bind. now rewrite Heq.
    + unfold executeStrategyTrade. rewrite run_bind.
      unfold then_run. rewrite Hv, Hf.
      assert (Hlt : 0 < MIN_GAS_ETH) by reflexivity.
      rewrite (run_finished _ _ _ _ _ _ _ (advance_settle_low env 0 _ _ w Hs Hlt)).
      reflexivity.
Qed.

Lemma balance_helper_zero_on_failure_witness :
  (exists v,
     outcome (run (getTreasuryBalance env_keyless) 0 initial_globals
                [reply_at 1 (RespBlockNumber 19000000);
                 reply_at 2 (RespBalance 7)]) = Returned v)
  /\ outcome (run (executeStrategyTrade env_keyless) 0 initial_globals
                [reply_at 1 (RespBlockNumber 19000000);
                 reply_at 2 (RespBalance 7)]) = Returned KeyNotSet
  /\ outcome (run (executeStrategyTrade env_keyed) 0 connected_globals
                [reply_at 1 (RespError NoQuorumError)])
     = Returned (NeedsFunding 0 MIN_GAS_ETH sample_address)
  /\ outcome (run (executeStrategyTrade env_keyed) 0 disconnected_globals
                [reply_at 1 (RespBlockNumber 19000000);
                 reply_at 2 (RespError NoQuorumError)])
     = Returned (NeedsFunding 0 MIN_GAS_ETH sample_address).
Proof.
  destruct (balance_helper_zero_on_failure env_keyless 0 initial_globals
              [reply_at 1 (RespBlockNumber 19000000);
               reply_at 2 (RespBalance 7)]) as (_ & Htotal & Hnone & _).
  destruct (balance_helper_zero_on_failure env_keyed 0 connected_globals
              [reply_at 1 (RespError NoQuorumError)]) as (_ & _ & _ & Herr).
  destruct (balance_helper_zero_on_failure env_keyed 0 disconnected_globals
              [reply_at 1 (RespBlockNumber 19000000);
               reply_at 2 (RespError NoQuorumError)]) as (_ & _ & Hafter & _).
  split; [| split; [| split]].
  - apply Htotal. simpl. lia.
  - destruct (Hnone 0 eq_refl) as (consumed & _ & _ & Hkey & _).
    apply Hkey. reflexivity.
  - apply (Herr sample_provider sample_wallet 1 NoQuorumError []);
      reflexivity.
  - destruct (Hafter 0 eq_refl) as (consumed & _ & _ & _ & Hzero).
    apply (Hzero sample_wallet); reflexivity.
Defined.

Lemma run_settle_funded env balance now g w replies :
  signer g = Some w -> MIN_GAS_ETH <= balance ->
  run (settle env balance) now g replies
  = run (if Nat.eqb (profitable_at_load env) 0
         then Ret NoProfitablePath
         else deposit (profitable_at_load env))
        now (bump STRATEGIES_PER_EXECUTION g) replies.
Proof.
  intros Hs Hge. unfold run.
  now rewrite (advance_settle_funded env balance now g w Hs Hge).
Qed.




(** C3 fails on the code.  A tick that deposits successfully leaves in
    [lastExecutionResult] the previous value of that variable under a
    time stamp, not the object the tick returned; a second tick wraps
    that once more; a tick that stops at the funding check leaves the
    variable untouched. *)
Theorem last_execution_result_wraps_its_previous_value :
  let r1 := run (executeStrategyTrade env_keyed) 1000 connected_globals
              (good_replies 1000) in
  let r2 := run (executeStrategyTrade env_keyed) 2000 (final r1)
              (good_replies 2000) in
  let r3 := run (executeStrategyTrade env_keyed) 3000 (final r2)
              [reply_at 3001 (RespBalance 5)] in
  let deposited :=
    Deposited 450 AGGREGATE_PROFIT_USD AGGREGATE_PROFIT_ETH sample_address
      "0xabc" 100 in
  outcome r1 = Returned deposited
  /\ finished_at r1 = 1004
  /\ lastExecutionResult (final r1) = Stamped Null 1004
  /\ lastExecutionResult (final r1) <> Stamped (Payload deposited) 1004
  /\ lastExecutionResult (final r2) = Stamped (Stamped Null 1004) 2004
  /\ outcome r3 = Returned (NeedsFunding 5 MIN_GAS_ETH sample_address)
  /\ lastExecutionResult (final r3) = Stamped (Stamped Null 1004) 2004.
Proof.
  lazy. repeat split; discriminate.
Qed.

(** C7, as the claim states it, fails: on a random source whose first
    450 draws pass the test and whose later draws do not, a batch drawn
    afresh for the second tick holds no positive signal, while the
    second tick of the code finds 450 of them, those of the first. *)
Lemma second_tick_reads_the_first_batch :
  let r1 := run (executeStrategyTrade env_keyed) 1000 connected_globals
              (good_replies 1000) in
  let r2 := run (executeStrategyTrade env_keyed) 2000 (final r1)
              (good_replies 2000) in
  filter (fun b => b) (spec_produceBatch env_keyed 450 1) = []
  /\ outcome r2
     = Returned (Deposited 450 AGGREGATE_PROFIT_USD AGGREGATE_PROFIT_ETH
                   sample_address "0xabc" 100)
  /\ signals_read env_keyed <> spec_produceBatch env_keyed 450 1.
Proof.
  lazy. repeat split; discriminate.
Qed.

(** a tick that stops at the key or funding check counts no check and
    never calls [transferEth] *)
Lemma tick_stopped_at_a_check env now g replies balance :
  outcome (run (getTreasuryBalance env) now g replies) = Returned balance ->
  signer (final (run (getTreasuryBalance env) now g replies)) = None
  \/ balance < MIN_GAS_ETH ->
  totalStrategiesExecuted (final (run (executeStrategyTrade env) now g replies))
  = totalStrategiesExecuted g
  /\ transfers (trace (run (executeStrategyTrade env) now g replies)) = [].
Proof.
  intros Hv Hstop.
  destruct (getTreasuryBalance_frame env now g replies)
    as (_ & Hc & _ & Ht & _).
  rewrite (tick_after_balance env now g replies balance Hv).
  destruct (signer (final (run (getTreasuryBalance env) now g replies)))
    as [w |] eqn:Hs.
  - destruct Hstop as [Hnone | Hlt]; [discriminate |].
    rewrite (run_finished _ _ _ _ _ _ _
               (advance_settle_low env balance _ _ w Hs Hlt)).
    cbn [prepend final trace]. rewrite app_nil_r. auto.
  - rewrite (run_finished _ _ _ _ _ _ _
               (advance_settle_no_signer env balance _ _ Hs)).
    cbn [prepend final trace]. rewrite app_nil_r. auto.
Qed.

(** C7 (amended).  The signals are drawn once, when the module is
    loaded: the table a tick reads holds the first 450 draws of the
    random source, and no tick draws any.  A tick whose balance read
    leaves a signer in place and returns at least [MIN_GAS_ETH], at
    whatever time and in whatever state, counts 450 checks and acts on
    the positive signals of that table: none, and it stops; at least
    one, and it enters the deposit block with their number.  A tick that
    stops at the key or funding check counts no check and never calls
    [transferEth]. *)
Theorem every_tick_reads_the_load_time_table :
  forall env now g replies balance,
    outcome (run (getTreasuryBalance env) now g replies) = Returned balance ->
    signals_read env = spec_produceBatch env 450 0
    /\ (forall w,
          signer (final (run (getTreasuryBalance env) now g replies)) = Some w ->
          MIN_GAS_ETH <= balance ->
          run (executeStrategyTrade env) now g replies
          = prepend (trace (run (getTreasuryBalance env) now g replies))
              (run (if Nat.eqb
                        (List.length (filter (fun b => b) (signals_read env))) 0
                    then Ret NoProfitablePath
                    else deposit
                           (List.length (filter (fun b => b) (signals_read env))))
                 (finished_at (run (getTreasuryBalance env) now g replies))
                 (bump STRATEGIES_PER_EXECUTION
                    (final (run (getTreasuryBalance env) now g replies)))
                 (unread (run (getTreasuryBalance env) now g replies))))
    /\ (signer (final (run (getTreasuryBalance env) now g replies)) = None
        \/ balance < MIN_GAS_ETH ->
        totalStrategiesExecuted
          (final (run (executeStrategyTrade env) now g replies))
        = totalStrategiesExecuted g
        /\ transfers (trace (run (executeStrategyTrade env) now g replies)) = []).
Proof.
  intros env now g replies balance Hv. split; [| split].
  - apply signals_read_at_load.
  - intros w Hs Hge.
    rewrite (tick_after_balance env now g replies balance Hv).
    rewrite <- profitable_at_load_signals.
    now rewrite (run_settle_funded env balance _ _ w _ Hs Hge).
  - apply tick_stopped_at_a_check. exact Hv.
Qed.

Lemma every_tick_reads_the_load_time_table_witness :
  run (executeStrategyTrade env_keyed) 2000 connected_globals (good_replies 2000)
  = prepend (trace (run (getTreasuryBalance env_keyed) 2000 connected_globals
                      (good_replies 2000)))
      (run (if Nat.eqb
                (List.length (filter (fun b => b) (signals_read env_keyed))) 0
            then Ret NoProfitablePath
            else deposit
                   (List.length (filter (fun b => b) (signals_read env_keyed))))
         (finished_at (run (getTreasuryBalance env_keyed) 2000
                         connected_globals (good_replies 2000)))
         (bump STRATEGIES_PER_EXECUTION
            (final (run (getTreasuryBalance env_keyed) 2000 connected_globals
                      (good_replies 2000))))
         (unread (run (getTreasuryBalance env_keyed) 2000 connected_globals
                    (good_replies 2000))))
  /\ totalStrategiesExecuted
       (final (run (executeStrategyTrade env_keyed) 0 connected_globals
                 [reply_at 1 (RespBalance 5)]))
     = totalStrategiesExecuted connected_globals.
Proof.
  destruct (every_tick_reads_the_load_time_table env_keyed 2000
              connected_globals (good_replies 2000) (5 * ether) eq_refl)
    as (_ & Hfunded & _).
  destruct (every_tick_reads_the_load_time_table env_keyed 0
              connected_globals [reply_at 1 (RespBalance 5)] 5 eq_refl)
    as (_ & _ & Hstopped).
  split.
  - apply (Hfunded sample_wallet).
    + reflexivity.
    + vm_compute. discriminate.
  - apply Hstopped. right. reflexivity.
Defined.

(** ** Timeouts *)

Lemma settle_run env balance now g replies :
  filter carries_timeout (trace (run (settle env balance) now g replies)) = []
  /\ forall e, outcome (run (settle env balance) now g replies) <> Threw e.
Proof.
  destruct (signer g) as [w |] eqn:Hs.
  - destruct (Z.lt_ge_cases balance MIN_GAS_ETH) as [Hlt | Hge].
    + rewrite (run_finished _ _ _ replies _ _ _
                 (advance_settle_low env balance now g w Hs Hlt)).
      simpl. split; [reflexivity | discriminate].
    + rewrite (run_settle_funded env balance now g w replies Hs Hge).
      destruct (Nat.eqb (profitable_at_load env) 0).
      * unfold run; simpl. rewrite resume_finished; simpl.
        split; [reflexivity | discriminate].
      * assert (Hs' : signer (bump STRATEGIES_PER_EXECUTION g) = Some w)
          by exact Hs.
        destruct (deposit_run (profitable_at_load env) now _ w replies Hs')
          as (_ & _ & _ & Hthrow & Hto).
        split; assumption.
  - rewrite (run_finished _ _ _ replies _ _ _
               (advance_settle_no_signer env balance now g Hs)).
    simpl. split; [reflexivity | discriminate].
Qed.

Lemma tick_run env now g replies :
  filter carries_timeout (trace (run (executeStrategyTrade env) now g replies)) = []
  /\ forall e, outcome (run (executeStrategyTrade env) now g replies) <> Threw e.
Proof.
  destruct (getTreasuryBalance_frame env now g replies)
    as (_ & _ & _ & _ & _ & Hto).
  pose proof (getTreasuryBalance_never_throws env now g replies) as Hnt.
  unfold executeStrategyTrade. rewrite run_bind. unfold then_run.
  destruct (outcome (run (getTreasuryBalance env) now g replies))
    as [balance | e | q].
  - cbn [prepend trace outcome]. rewrite filter_app, Hto. cbn [app].
    apply settle_run.
  - exfalso. now apply (Hnt e).
  - cbn [trace outcome]. split; [exact Hto | discriminate].
Qed.

Lemma tick_suspends env now g :
  exists g' r k,
    advance (executeStrategyTrade env) now g
    = {| seg_globals := g'; seg_events := [Issued r];
         seg_paused := Suspended r k |}.
Proof.
  destruct (getTreasuryBalance_suspends env now g) as (g' & r & k & H).
  unfold executeStrategyTrade. rewrite advance_bind, H.
  unfold seg_then; simpl. eauto.
Qed.

(** C8, as the claim states it, fails: the confirmation wait is issued
    without a timeout, and when no confirmation arrives the tick neither
    returns nor fails, it stays suspended on that wait. *)
Lemma confirmation_wait_without_timeout :
  let r := run (executeStrategyTrade env_keyed) 1000 connected_globals
             (unconfirmed_replies 1000) in
  outcome r = Pending (ReqWait sample_tx None None)
  /\ In (Issued (ReqWait sample_tx None None)) (trace r)
  /\ unread r = [].
Proof.
  lazy. repeat split. do 5 right. left. reflexivity.
Qed.

(** C8 (amended).  The code gives no network request a timeout: none of
    the requests of a tick carries one, the confirmation wait included.
    A tick to which the network does not reply stays suspended on its
    request.  A rejection that the network does report never escapes the
    tick as an exception. *)
Theorem no_request_carries_a_timeout :
  forall env now g replies,
    filter carries_timeout
      (trace (run (executeStrategyTrade env) now g replies)) = []
    /\ (forall e,
          outcome (run (executeStrategyTrade env) now g replies) <> Threw e)
    /\ (exists q,
          outcome (run (executeStrategyTrade env) now g []) = Pending q).
Proof.
  intros env now g replies.
  destruct (tick_run env now g replies) as (Hto & Hnt).
  split; [exact Hto | split; [exact Hnt |]].
  destruct (tick_suspends env now g) as (g' & r & k & H).
  exists r. unfold run. rewrite H. reflexivity.
Qed.

(** ** The status snapshot *)

Lemma advance_status_body balance now g :
  exists snap,
    advance (status_body balance) now g
    = {| seg_globals := g; seg_events := []; seg_paused := Finished snap |}.
Proof. unfold status_body, get, clock; simpl. eauto. Qed.

(** C9, as the claim states it, fails: a status read made while the
    service is disconnected runs the connection routine, and leaves
    another connection state, provider and signer behind. *)
Lemma status_read_reconnects :
  let r := run (status_handler env_keyed) 5000 disconnected_globals
             [reply_at 5001 (RespBlockNumber 19000000);
              reply_at 5002 (RespBalance 7)] in
  monitorStatus disconnected_globals = "disconnected"
  /\ monitorStatus (final r) = "connected"
  /\ provider (final r) <> provider disconnected_globals
  /\ signer (final r) <> signer disconnected_globals
  /\ final r <> disconnected_globals.
Proof.
  lazy. repeat split; discriminate.
Qed.

(** C9 (amended).  A status read never touches the counters nor the
    last execution result, calls [transferEth] never and issues no fee,
    submission or confirmation request.  When provider and signer are
    both in place it leaves all module-level variables as they are;
    otherwise it runs the connection routine first, which may change
    connection state, provider and signer. *)
Theorem status_read_frame :
  forall env now g replies,
    let r := run (status_handler env) now g replies in
    lastExecutionResult (final r) = lastExecutionResult g
    /\ totalStrategiesExecuted (final r) = totalStrategiesExecuted g
    /\ totalRealizedToTreasury (final r) = totalRealizedToTreasury g
    /\ transfers (trace r) = []
    /\ filter is_submission (trace r) = []
    /\ (forall p w, provider g = Some p -> signer g = Some w -> final r = g).
Proof.
  intros env now g replies.
  destruct (getTreasuryBalance_frame env now g replies)
    as (Hl & Hc & Hu & Ht & Hsub & _).
  assert (Hfinal : final (run (status_handler env) now g replies)
                   = final (run (getTreasuryBalance env) now g replies)
                   /\ trace (run (status_handler env) now g replies)
                      = trace (run (getTreasuryBalance env) now g replies)).
  { unfold status_handler. rewrite run_bind. unfold then_run.
    destruct (outcome (run (getTreasuryBalance env) now g replies))
      as [balance | e | q]; [| split; reflexivity | split; reflexivity].
    destruct (advance_status_body balance
                (finished_at (run (getTreasuryBalance env) now g replies))
                (final (run (getTreasuryBalance env) now g replies)))
      as (snap & Hsnap).
    rewrite (run_finished _ _ _ _ _ _ _ Hsnap). simpl.
    now rewrite app_nil_r. }
  destruct Hfinal as (Hf & Htr).
  cbv zeta. rewrite Hf, Htr. repeat split; try assumption.
  intros p w Hp Hs. now apply getTreasuryBalance_connected with (p := p) (w := w).
Qed.

Lemma status_read_frame_witness :
  final (run (status_handler env_keyed) 5000 connected_globals
           [reply_at 5001 (RespBalance 7)]) = connected_globals.
Proof.
  apply (status_read_frame env_keyed 5000 connected_globals
           [reply_at 5001 (RespBalance 7)]) with (p := sample_provider)
                                                 (w := sample_wallet).
  - reflexivity.
  - reflexivity.
Defined.

(** ** Overlapping ticks *)

Lemma timer_callback_suspends env now g :
  exists g' r k,
    advance (timer_callback env) now g
    = {| seg_globals := g'; seg_events := [Issued r];
         seg_paused := Suspended r k |}.
Proof.
  destruct (tick_suspends env now g) as (g' & r & k & H).
  unfold timer_callback. rewrite advance_bind, H.
  unfold seg_then; simpl. eauto.
Qed.

Lemma manual_callback_suspends env now g :
  exists g' r k,
    advance (manual_callback env) now g
    = {| seg_globals := g'; seg_events := [Issued r];
         seg_paused := Suspended r k |}.
Proof.
  destruct (tick_suspends env now g) as (g' & r & k & H).
  unfold manual_callback, execute_arbitrage_handler.
  rewrite !advance_bind, H.
  unfold seg_then; simpl. eauto.
Qed.

(** C1, as the claim states it, fails: a second firing of the timer
    while the first tick still waits for its balance starts a second
    settlement; both are then in flight, and once their balances are
    delivered both have called [transferEth] and both wait for their
    second balance read. *)
Lemma two_settlements_in_flight :
  let s := sys_run env_keyed [(0, TimerFired); (1000, TimerFired)]
             (boot connected_globals) in
  let s' := sys_run env_keyed
              [(1500, Delivered 0 (RespBalance (5 * ether)));
               (1600, Delivered 0 (RespBalance (5 * ether)))] s in
  List.length (in_flight s) = 2%nat
  /\ map awaiting (in_flight s)
     = [ReqBalance sample_provider sample_address;
        ReqBalance sample_provider sample_address]
  /\ completed s = []
  /\ List.length (in_flight s') = 2%nat
  /\ transfers (issued s')
     = [TransferCalled AGGREGATE_PROFIT_ETH sample_address;
        TransferCalled AGGREGATE_PROFIT_ETH sample_address].
Proof.
  lazy. repeat split.
Qed.

(** C1 (amended).  There is no single-flight guard: every firing of the
    timer and every manual trigger starts a settlement at once, whatever
    is already in flight.  The settlements in flight before the trigger
    stay as they are and one more joins them, suspended on its first
    network request; nothing completes in that step.  Both triggers run
    the same routine. *)
Theorem every_trigger_starts_a_settlement :
  forall env now s,
    (exists task,
       in_flight (sys_step env now TimerFired s)
       = (in_flight s ++ [task])%list
       /\ completed (sys_step env now TimerFired s) = completed s)
    /\ (exists task,
          in_flight (sys_step env now ManualTrigger s)
          = (in_flight s ++ [task])%list
          /\ completed (sys_step env now ManualTrigger s) = completed s)
    /\ List.length (in_flight (sys_step env now TimerFired s))
       = S (List.length (in_flight s))
    /\ List.length (in_flight (sys_step env now ManualTrigger s))
       = S (List.length (in_flight s)).
Proof.
  intros env now s.
  destruct (timer_callback_suspends env now (globals s)) as (g1 & r1 & k1 & H1).
  destruct (manual_callback_suspends env now (globals s)) as (g2 & r2 & k2 & H2).
  unfold sys_step, settle_segment. rewrite H1, H2. simpl.
  repeat split.
  - eexists. split; reflexivity.
  - eexists. split; reflexivity.
  - rewrite length_app. simpl. lia.
  - rewrite length_app. simpl. lia.
Qed.

(** ** Quorum reads *)

Lemma first_agreed_sound Q all : forall candidates v,
  first_agreed Q candidates all = Agreed v -> (Q <= agreement v all)%nat.
Proof.
  induction candidates as [| [u |] rest IH]; intros v H; simpl in H.
  - discriminate.
  - destruct (Nat.leb Q (agreement u all)) eqn:Hq.
    + injection H as <-. now apply Nat.leb_le.
    + now apply IH.
  - now apply IH.
Qed.

Lemma first_agreed_none Q all : forall candidates,
  (forall v, (agreement v all < Q)%nat) ->
  first_agreed Q candidates all = NoQuorum.
Proof.
  intros candidates Hlt.
  induction candidates as [| [u |] rest IH]; simpl.
  - reflexivity.
  - destruct (Nat.leb Q (agreement u all)) eqn:Hq.
    + apply Nat.leb_le in Hq. specialize (Hlt u). lia.
    + exact IH.
  - exact IH.
Qed.

Lemma first_agreed_complete Q all : forall candidates v,
  In (Some v) candidates -> (Q <= agreement v all)%nat ->
  exists u, first_agreed Q candidates all = Agreed u.
Proof.
  induction candidates as [| [u |] rest IH]; intros v Hin Hq; simpl.
  - destruct Hin.
  - destruct (Nat.leb Q (agreement u all)) eqn:Hu.
    + eauto.
    + destruct Hin as [Heq | Hin].
      * injection Heq as ->. apply Nat.leb_gt in Hu. lia.
      * eapply IH; eassumption.
  - destruct Hin as [Heq | Hin]; [discriminate |].
    eapply IH; eassumption.
Qed.

Lemma agreement_positive v : forall responses,
  (1 <= agreement v responses)%nat -> In (Some v) responses.
Proof.
  unfold agreement.
  induction responses as [| [u |] rest IH]; simpl; intro H.
  - lia.
  - destruct (Z.eqb u v) eqn:Huv.
    + apply Z.eqb_eq in Huv. subst u. now left.
    + right. now apply IH.
  - right. now apply IH.
Qed.

(** with threshold 1 the first endpoint that answers decides *)
Lemma quorum_one_first_response v rest :
  quorumRead 1 (Some v :: rest) = Agreed v
  /\ quorumRead 1 (None :: Some v :: rest) = Agreed v.
Proof.
  unfold quorumRead. cbn [first_agreed]. unfold agreement.
  cbn [filter]. rewrite Z.eqb_refl.
  cbn [List.length Nat.leb]. auto.
Qed.

(** C2.  A quorum read with threshold Q returns a value only if at least
    Q endpoints reported it, and fails with NoQuorum when no value was
    reported by Q endpoints; for Q at least 1 it does return a value
    when one was reported by Q endpoints.  With Q = 2 the responses
    {10, 10, 7} give 10 and the responses {10, 7, 3} give NoQuorum.
    With Q above 1 a value reported by one endpoint only is never
    returned. *)
Theorem quorum_read_agreement :
  forall Q responses,
    (forall v, quorumRead Q responses = Agreed v ->
               (Q <= agreement v responses)%nat)
    /\ ((forall v, (agreement v responses < Q)%nat) ->
        quorumRead Q responses = NoQuorum)
    /\ (forall v, (1 <= Q)%nat -> (Q <= agreement v responses)%nat ->
                  exists u, quorumRead Q responses = Agreed u)
    /\ quorumRead 2 [Some 10; Some 10; Some 7] = Agreed 10
    /\ quorumRead 2 [Some 10; Some 7; Some 3] = NoQuorum
    /\ (forall v, (1 < Q)%nat -> (agreement v responses <= 1)%nat ->
                  quorumRead Q responses <> Agreed v).
Proof.
  intros Q responses. unfold quorumRead. repeat split.
  - intro v. apply first_agreed_sound.
  - apply first_agreed_none.
  - intros v HQ Hv. apply first_agreed_complete with (v := v); [| exact Hv].
    apply agreement_positive. lia.
  - intros v HQ Hone Hread. apply first_agreed_sound in Hread. lia.
Qed.

Lemma quorum_read_agreement_witness :
  Nat.le 2 (agreement 10 [Some 10; Some 10; Some 7])
  /\ quorumRead 2 [Some 10; Some 7; Some 3] = NoQuorum
  /\ (exists u, quorumRead 2 [Some 7; Some 10; Some 10] = Agreed u)
  /\ quorumRead 2 [Some 10] <> Agreed 10.
Proof.
  destruct (quorum_read_agreement 2 [Some 10; Some 10; Some 7])
    as (Hsound & _).
  destruct (quorum_read_agreement 2 [Some 10; Some 7; Some 3])
    as (_ & Hnone & _).
  destruct (quorum_read_agreement 2 [Some 7; Some 10; Some 10])
    as (_ & _ & Hcomplete & _).
  destruct (quorum_read_agreement 2 [Some 10])
    as (_ & _ & _ & _ & _ & Hsingle).
  split; [| split; [| split]].
  - apply Hsound. reflexivity.
  - apply Hnone. intro v. unfold agreement. cbn [filter].
    destruct (Z.eqb_spec 10 v), (Z.eqb_spec 7 v), (Z.eqb_spec 3 v);
      cbn [List.length]; lia.
  - apply (Hcomplete 10); unfold agreement; simpl; lia.
  - apply Hsingle; unfold agreement; simpl; lia.
Defined.

(** * Further properties of the module *)

(** ** Connection establishment *)

(** X1.  When the connection probe is rejected, [initProvider] returns
    false after that one request and leaves no provider, no signer (also
    when one was in place before) and the state "disconnected". *)
Theorem initProvider_rejected :
  forall env now g t e rest,
    let r := run (initProvider env) now g (reply_at t (RespError e) :: rest) in
    outcome r = Returned false
    /\ trace r = [Issued (ReqBlockNumber (built_provider env))]
    /\ provider (final r) = None
    /\ signer (final r) = None
    /\ monitorStatus (final r) = "disconnected"
    /\ lastExecutionResult (final r) = lastExecutionResult g
    /\ unread r = rest.
Proof.
  intros env now g t e rest. destruct g.
  unfold run, initProvider; simpl. rewrite resume_finished; simpl.
  repeat split.
Qed.

(** X2.  With a key the wallet constructor accepts, a successful probe
    makes [initProvider] return true and install the provider built
    over [RPC_URLS], a signer with the key's address bound to that
    provider, and the state "connected". *)
Theorem initProvider_connects_with_key :
  forall env now g t n rest key a,
    PRIVATE_KEY env = Some key -> Wallet_address env key = Some a ->
    let r := run (initProvider env) now g (reply_at t (RespBlockNumber n) :: rest) in
    outcome r = Returned true
    /\ provider (final r) = Some (built_provider env)
    /\ signer (final r)
       = Some {| privateKey := key; address := a;
                 wallet_provider := Some (built_provider env) |}
    /\ monitorStatus (final r) = "connected".
Proof.
  intros env now g t n rest key a Hk Ha. destruct g.
  unfold run, initProvider, new_Wallet; simpl. rewrite Hk; simpl.
  rewrite Ha; simpl. rewrite resume_finished; simpl.
  repeat split.
Qed.

Lemma initProvider_connects_with_key_witness :
  signer (final (run (initProvider env_keyed) 0 initial_globals
                   [reply_at 1 (RespBlockNumber 19000000)]))
  = Some {| privateKey := "0xkey"; address := sample_address;
            wallet_provider := Some (built_provider env_keyed) |}.
Proof.
  apply (initProvider_connects_with_key env_keyed 0 initial_globals 1
           19000000 [] "0xkey" sample_address).
  - reflexivity.
  - reflexivity.
Defined.

(** X3.  With a key the wallet constructor rejects, [initProvider]
    fails although the network answered: it returns false and ends
    disconnected, with the provider it had just installed removed. *)
Theorem initProvider_rejected_key :
  forall env now g t n rest key,
    PRIVATE_KEY env = Some key -> Wallet_address env key = None ->
    let r := run (initProvider env) now g (reply_at t (RespBlockNumber n) :: rest) in
    outcome r = Returned false
    /\ provider (final r) = None
    /\ signer (final r) = None
    /\ monitorStatus (final r) = "disconnected".
Proof.
  intros env now g t n rest key Hk Ha. destruct g.
  unfold run, initProvider, new_Wallet; simpl. rewrite Hk; simpl.
  rewrite Ha; simpl. rewrite resume_finished; simpl.
  repeat split.
Qed.

Lemma initProvider_rejected_key_witness :
  monitorStatus (final (run (initProvider env_badkey) 0 initial_globals
                          [reply_at 1 (RespBlockNumber 19000000)]))
  = "disconnected".
Proof.
  apply (initProvider_rejected_key env_badkey 0 initial_globals 1
           19000000 [] "not-a-key").
  - reflexivity.
  - reflexivity.
Defined.

(** X4.  Without a usable key (none configured, or one the wallet
    constructor rejects) a tick that starts without signer issues the
    connection probe only, answers "key not set", counts no check, and
    ends without signer again - so does every later tick. *)
Theorem tick_without_usable_key :
  forall env now g t n rest,
    signer g = None ->
    (PRIVATE_KEY env = None
     \/ exists key, PRIVATE_KEY env = Some key /\ Wallet_address env key = None) ->
    let r := run (executeStrategyTrade env) now g
               (reply_at t (RespBlockNumber n) :: rest) in
    outcome r = Returned KeyNotSet
    /\ trace r = [Issued (ReqBlockNumber (built_provider env))]
    /\ signer (final r) = None
    /\ totalStrategiesExecuted (final r) = totalStrategiesExecuted g
    /\ unread r = rest.
Proof.
  intros env now g t n rest Hs Hkey.
  assert (Hb : run (getTreasuryBalance env) now g
                 (reply_at t (RespBlockNumber n) :: rest)
               = {| final := final (run (getTreasuryBalance env) now g
                                      (reply_at t (RespBlockNumber n) :: rest));
                    outcome := Returned 0;
                    trace := [Issued (ReqBlockNumber (built_provider env))];
                    finished_at := t; unread := rest |}
               /\ signer (final (run (getTreasuryBalance env) now g
                                   (reply_at t (RespBlockNumber n) :: rest))) = None
               /\ totalStrategiesExecuted
                    (final (run (getTreasuryBalance env) now g
                              (reply_at t (RespBlockNumber n) :: rest)))
                  = totalStrategiesExecuted g).
  { destruct g as [pg sg ? ? ? ?]. simpl in Hs. subst sg.
    unfold run, getTreasuryBalance, initProvider, new_Wallet.
    destruct Hkey as [Hk | (key & Hk & Ha)].
    - destruct pg; simpl; rewrite Hk; simpl; rewrite resume_finished; simpl;
        repeat split.
    - destruct pg; simpl; rewrite Hk; simpl; rewrite Ha; simpl;
        rewrite resume_finished; simpl; repeat split. }
  destruct Hb as (Hb & Hsf & Hc).
  cbv zeta. unfold executeStrategyTrade. rewrite run_bind.
  unfold then_run. rewrite Hb. cbn [outcome finished_at final unread trace].
  rewrite (run_finished _ _ _ _ _ _ _
             (advance_settle_no_signer env 0 t _ Hsf)).
  simpl. repeat split; assumption.
Qed.

Lemma tick_without_usable_key_witness :
  outcome (run (executeStrategyTrade env_badkey) 0 disconnected_globals
             [reply_at 1 (RespBlockNumber 19000000)])
  = Returned KeyNotSet.
Proof.
  apply (tick_without_usable_key env_badkey 0 disconnected_globals 1
           19000000 []).
  - reflexivity.
  - right. exists "not-a-key". split; reflexivity.
Defined.

(** ** The balance helper reconnects lazily *)

(** X5.  The balance helper reconnects lazily: with provider and signer
    in place its first request is the balance of the signer's address and
    nothing is assigned; with either missing its first request is the
    connection probe, under the state "connecting". *)
Theorem getTreasuryBalance_first_request :
  forall env now g,
    let seg := advance (getTreasuryBalance env) now g in
    match provider g, signer g with
    | Some p, Some w =>
        seg_events seg = [Issued (ReqBalance p (address w))]
        /\ seg_globals seg = g
    | _, _ =>
        seg_events seg = [Issued (ReqBlockNumber (built_provider env))]
        /\ seg_globals seg = set_monitorStatus "connecting" g
    end.
Proof.
  intros env now g.
  destruct g as [[p |] [w |] ? ? ? ?];
    unfold getTreasuryBalance, initProvider; simpl; split; reflexivity.
Qed.

(** ** [transferEth] *)

(** X6.  Without signer [transferEth] throws the "private key not set"
    error at once: no request is issued and nothing is assigned. *)
Theorem transfer_without_signer :
  forall now g amount recipient replies,
    signer g = None ->
    run (transferEth amount recipient) now g replies
    = {| final := g; outcome := Threw SigningUnavailable;
         trace := [TransferCalled amount recipient];
         finished_at := now; unread := replies |}.
Proof.
  intros now g amount recipient replies Hs.
  destruct g as [pg sg ? ? ? ?]. simpl in Hs. subst sg.
  unfold run, transferEth; simpl. now rewrite resume_raised.
Qed.

Lemma transfer_without_signer_witness :
  outcome (run (transferEth AGGREGATE_PROFIT_ETH sample_address) 0
             disconnected_globals (good_replies 0))
  = Threw SigningUnavailable.
Proof.
  rewrite (transfer_without_signer 0 disconnected_globals AGGREGATE_PROFIT_ETH
             sample_address (good_replies 0)).
  - reflexivity.
  - reflexivity.
Defined.

(** X7.  With provider and signer in place and a sufficient balance,
    [transferEth] issues, in this order, the balance read, the fee read,
    the submission (recipient and amount as given, gas limit 25000, the
    two fee fields of the fee reply) and the confirmation wait, returns
    the transaction and its receipt, and assigns nothing. *)
Theorem transfer_success :
  forall now g p w amount recipient balance fees tx receipt t1 t2 t3 t4 rest,
    provider g = Some p -> signer g = Some w -> amount <= balance ->
    run (transferEth amount recipient) now g
      (reply_at t1 (RespBalance balance) :: reply_at t2 (RespFeeData fees)
       :: reply_at t3 (RespTx tx) :: reply_at t4 (RespReceipt receipt) :: rest)
    = {| final := g;
         outcome := Returned (tx, receipt);
         trace :=
           [TransferCalled amount recipient;
            Issued (ReqBalance p (address w));
            Issued (ReqFeeData p);
            Issued (ReqSendTransaction w
                      {| to := recipient; value := amount; gasLimit := 25000;
                         tx_maxFeePerGas := maxFeePerGas fees;
                         tx_maxPriorityFeePerGas := maxPriorityFeePerGas fees |});
            Issued (ReqWait tx None None)];
         finished_at := t4; unread := rest |}.
Proof.
  intros now g p w amount recipient balance fees tx receipt t1 t2 t3 t4 rest
         Hp Hs Hle.
  destruct g as [pg sg ? ? ? ?]. simpl in Hp, Hs. subst pg sg.
  apply Z.ltb_ge in Hle.
  unfold run, transferEth; simpl. rewrite Hle; simpl.
  now rewrite resume_finished.
Qed.

Lemma transfer_success_witness :
  outcome (run (transferEth AGGREGATE_PROFIT_ETH COINBASE_WALLET) 0
             connected_globals
             [reply_at 1 (RespBalance (5 * ether));
              reply_at 2 (RespFeeData sample_fees);
              reply_at 3 (RespTx sample_tx);
              reply_at 4 (RespReceipt {| blockNumber := 100 |})])
  = Returned (sample_tx, {| blockNumber := 100 |}).
Proof.
  rewrite (transfer_success 0 connected_globals sample_provider sample_wallet
             AGGREGATE_PROFIT_ETH COINBASE_WALLET (5 * ether) sample_fees
             sample_tx {| blockNumber := 100 |} 1 2 3 4 []).
  - reflexivity.
  - reflexivity.
  - reflexivity.
  - vm_compute. discriminate.
Defined.

(** X8.  [transferEth] stops at the first rejected request and throws
    that very error: a rejected fee read issues no submission, a rejected
    submission issues no confirmation wait, a rejected confirmation wait
    comes after the submission and leaves the state as it was. *)
Theorem transfer_stops_at_first_rejection :
  forall now g p w amount recipient balance fees tx e t1 t2 t3 t4 rest,
    provider g = Some p -> signer g = Some w -> amount <= balance ->
    let fee_rejected :=
      run (transferEth amount recipient) now g
        (reply_at t1 (RespBalance balance) :: reply_at t2 (RespError e) :: rest) in
    let send_rejected :=
      run (transferEth amount recipient) now g
        (reply_at t1 (RespBalance balance) :: reply_at t2 (RespFeeData fees)
         :: reply_at t3 (RespError e) :: rest) in
    let wait_rejected :=
      run (transferEth amount recipient) now g
        (reply_at t1 (RespBalance balance) :: reply_at t2 (RespFeeData fees)
         :: reply_at t3 (RespTx tx) :: reply_at t4 (RespError e) :: rest) in
    (outcome fee_rejected = Threw e
     /\ trace fee_rejected
        = [TransferCalled amount recipient;
           Issued (ReqBalance p (address w)); Issued (ReqFeeData p)]
     /\ unread fee_rejected = rest)
    /\ (outcome send_rejected = Threw e
        /\ filter (fun ev => match ev with
                             | Issued (ReqWait _ _ _) => true
                             | _ => false
                             end) (trace send_rejected) = []
        /\ unread send_rejected = rest)
    /\ (outcome wait_rejected = Threw e
        /\ In (Issued (ReqWait tx None None)) (trace wait_rejected)
        /\ final wait_rejected = g).
Proof.
  intros now g p w amount recipient balance fees tx e t1 t2 t3 t4 rest
         Hp Hs Hle.
  destruct g as [pg sg ? ? ? ?]. simpl in Hp, Hs. subst pg sg.
  apply Z.ltb_ge in Hle.
  unfold run, transferEth; simpl. rewrite Hle; simpl.
  rewrite !resume_raised. simpl.
  repeat split. do 4 right. left. reflexivity.
Qed.

Lemma transfer_stops_at_first_rejection_witness :
  outcome (run (transferEth AGGREGATE_PROFIT_ETH COINBASE_WALLET) 0
             connected_globals
             [reply_at 1 (RespBalance (5 * ether));
              reply_at 2 (RespError (JsError "fee market unavailable"))])
  = Threw (JsError "fee market unavailable").
Proof.
  apply (transfer_stops_at_first_rejection 0 connected_globals sample_provider
           sample_wallet AGGREGATE_PROFIT_ETH COINBASE_WALLET (5 * ether)
           sample_fees sample_tx (JsError "fee market unavailable") 1 2 3 4 []).
  - reflexivity.
  - reflexivity.
  - vm_compute. discriminate.
Defined.

(** ** One tick, from a connected state *)

Lemma tick_connected env now g p w t b rest :
  provider g = Some p -> signer g = Some w ->
  run (executeStrategyTrade env) now g (reply_at t (RespBalance b) :: rest)
  = prepend [Issued (ReqBalance p (address w))] (run (settle env b) t g rest).
Proof.
  intros Hp Hs.
  assert (Hb : run (getTreasuryBalance env) now g
                 (reply_at t (RespBalance b) :: rest)
               = {| final := g; outcome := Returned b;
                    trace := [Issued (ReqBalance p (address w))];
                    finished_at := t; unread := rest |}).
  { destruct g as [pg sg ? ? ? ?]. simpl in Hp, Hs. subst pg sg.
    unfold run, getTreasuryBalance; simpl. now rewrite resume_finished. }
  unfold executeStrategyTrade. rewrite run_bind. unfold then_run.
  rewrite Hb. reflexivity.
Qed.

Lemma profitable_at_load_bound env : (profitable_at_load env <= 450)%nat.
Proof.
  unfold profitable_at_load.
  rewrite <- (STRATEGIES_length env). apply filter_length_le.
Qed.

Lemma no_positive_signal env :
  ~ In true (signals_read env) -> profitable_at_load env = 0%nat.
Proof.
  intro Hno. rewrite profitable_at_load_signals.
  destruct (filter (fun b => b) (signals_read env)) as [| b l] eqn:Hf.
  - reflexivity.
  - exfalso. apply Hno.
    assert (Hin : In b (filter (fun b => b) (signals_read env)))
      by (rewrite Hf; now left).
    apply filter_In in Hin. destruct Hin as (Hin & Hb). now subst b.
Qed.

(** X9.  A funded tick that finds no positive signal returns "no
    profitable path" after the one balance read: 450 checks are counted,
    [transferEth] is not called, the realized total and the last
    execution result stay as they were. *)
Theorem tick_without_profitable_path :
  forall env now g p w t b rest,
    provider g = Some p -> signer g = Some w ->
    MIN_GAS_ETH <= b -> ~ In true (signals_read env) ->
    run (executeStrategyTrade env) now g (reply_at t (RespBalance b) :: rest)
    = {| final := set_totalStrategiesExecuted
                    (totalStrategiesExecuted g + 450) g;
         outcome := Returned NoProfitablePath;
         trace := [Issued (ReqBalance p (address w))];
         finished_at := t; unread := rest |}.
Proof.
  intros env now g p w t b rest Hp Hs Hge Hno.
  rewrite (tick_connected env now g p w t b rest Hp Hs).
  rewrite (run_settle_funded env b t g w rest Hs Hge).
  rewrite (no_positive_signal env Hno). cbn [Nat.eqb].
  rewrite (run_finished (Ret NoProfitablePath) t _ rest _ [] NoProfitablePath eq_refl).
  reflexivity.
Qed.

Lemma tick_without_profitable_path_witness :
  outcome (run (executeStrategyTrade env_unlucky) 0 connected_globals
             [reply_at 1 (RespBalance (5 * ether))])
  = Returned NoProfitablePath
  /\ totalStrategiesExecuted
       (final (run (executeStrategyTrade env_unlucky) 0 connected_globals
                 [reply_at 1 (RespBalance (5 * ether))])) = 450.
Proof.
  rewrite (tick_without_profitable_path env_unlucky 0 connected_globals
             sample_provider sample_wallet 1 (5 * ether) []).
  - split; reflexivity.
  - reflexivity.
  - reflexivity.
  - vm_compute. discriminate.
  - rewrite signals_read_at_load. intro H. apply in_map_iff in H.
    destruct H as (i & Hi & _). discriminate.
Defined.

(** what the deposit block does to the module-level variables *)
Lemma deposit_accounting n now g w replies :
  signer g = Some w ->
  let r := run (deposit n) now g replies in
  totalRealizedToTreasury (final r)
  = totalRealizedToTreasury g
    + match outcome r with
      | Returned (Deposited _ _ _ _ _ _) => AGGREGATE_PROFIT_USD
      | _ => 0
      end
  /\ provider (final r) = provider g
  /\ signer (final r) = signer g
  /\ monitorStatus (final r) = monitorStatus g
  /\ match outcome r with
     | Returned (Deposited k usd eth a _ _) =>
         k = n /\ usd = AGGREGATE_PROFIT_USD /\ eth = AGGREGATE_PROFIT_ETH
         /\ a = address w
         /\ depth (lastExecutionResult (final r))
            = S (depth (lastExecutionResult g))
     | Returned (DepositFailed _ eth) =>
         eth = AGGREGATE_PROFIT_ETH
         /\ depth (lastExecutionResult (final r))
            = S (depth (lastExecutionResult g))
     | Returned _ => False
     | Threw _ => False
     | Pending _ => lastExecutionResult (final r) = lastExecutionResult g
     end.
Proof.
  intros Hs.
  destruct g as [pg sg l m c u]. simpl in Hs. subst sg.
  unfold run, deposit, transferEth, record_last_execution; simpl.
  destruct pg as [p |]; simpl.
  all: repeat exec_step.
  all: repeat split; try lia.
Qed.

(** X10.  The books of a tick, whatever the state and the replies: the
    realized total grows by [AGGREGATE_PROFIT_USD] exactly when the tick
    returns a deposit and stays otherwise; the check counter stays on the
    two early errors and grows by 450 on the three other results; the
    last execution result gains one time stamp exactly when the deposit
    block was left (deposit or failed deposit); a tick never throws. *)
Theorem tick_accounting :
  forall env now g replies,
    let r := run (executeStrategyTrade env) now g replies in
    totalRealizedToTreasury (final r)
    = totalRealizedToTreasury g
      + match outcome r with
        | Returned (Deposited _ _ _ _ _ _) => AGGREGATE_PROFIT_USD
        | _ => 0
        end
    /\ match outcome r with
       | Returned KeyNotSet | Returned (NeedsFunding _ _ _) =>
           totalStrategiesExecuted (final r) = totalStrategiesExecuted g
           /\ lastExecutionResult (final r) = lastExecutionResult g
       | Returned NoProfitablePath =>
           totalStrategiesExecuted (final r) = totalStrategiesExecuted g + 450
           /\ lastExecutionResult (final r) = lastExecutionResult g
       | Returned (Deposited _ _ _ _ _ _) | Returned (DepositFailed _ _) =>
           totalStrategiesExecuted (final r) = totalStrategiesExecuted g + 450
           /\ depth (lastExecutionResult (final r))
              = S (depth (lastExecutionResult g))
       | Threw _ => False
       | Pending _ =>
           (totalStrategiesExecuted (final r) = totalStrategiesExecuted g
            \/ totalStrategiesExecuted (final r) = totalStrategiesExecuted g + 450)
           /\ lastExecutionResult (final r) = lastExecutionResult g
       end.
Proof.
  intros env now g replies.
  destruct (getTreasuryBalance_frame env now g replies)
    as (Hl & Hc & Hu & _).
  pose proof (getTreasuryBalance_never_throws env now g replies) as Hnt.
  cbv zeta. unfold executeStrategyTrade. rewrite run_bind. unfold then_run.
  destruct (outcome (run (getTreasuryBalance env) now g replies))
    as [balance | e | q].
  2:{ exfalso. now apply (Hnt e). }
  2:{ cbn [outcome final]. rewrite Hl, Hc, Hu. split; [lia | auto]. }
  set (gf := final (run (getTreasuryBalance env) now g replies)) in *.
  set (tf := finished_at (run (getTreasuryBalance env) now g replies)).
  set (u := unread (run (getTreasuryBalance env) now g replies)).
  cbn [prepend outcome final].
  destruct (signer gf) as [w |] eqn:Hs.
  - destruct (Z.lt_ge_cases balance MIN_GAS_ETH) as [Hlt | Hge].
    + rewrite (run_finished _ _ _ u _ _ _
                 (advance_settle_low env balance tf gf w Hs Hlt)).
      cbn [outcome final]. rewrite Hl, Hc, Hu. split; [lia | auto].
    + rewrite (run_settle_funded env balance tf gf w u Hs Hge).
      destruct (Nat.eqb (profitable_at_load env) 0).
      * rewrite (run_finished (Ret NoProfitablePath) tf _ u _ []
                   NoProfitablePath eq_refl).
        cbn [outcome final]. unfold bump, STRATEGIES_PER_EXECUTION.
        destruct gf; simpl in *. subst. split; [lia | split; [lia | reflexivity]].
      * assert (Hs' : signer (bump STRATEGIES_PER_EXECUTION gf) = Some w)
          by exact Hs.
        pose proof (deposit_accounting (profitable_at_load env) tf _ w u Hs')
          as Hd.
        cbv zeta in Hd. destruct Hd as (Hr & _ & _ & _ & Hcase).
        pose proof (deposit_run (profitable_at_load env) tf _ w u Hs')
          as Hd2.
        cbv zeta in Hd2. destruct Hd2 as (_ & Hc2 & _).
        assert (Hb1 : totalRealizedToTreasury (bump STRATEGIES_PER_EXECUTION gf)
                      = totalRealizedToTreasury g)
          by (rewrite <- Hu; destruct gf; reflexivity).
        assert (Hb2 : totalStrategiesExecuted (bump STRATEGIES_PER_EXECUTION gf)
                      = totalStrategiesExecuted g + 450)
          by (rewrite <- Hc; destruct gf; reflexivity).
        assert (Hb3 : lastExecutionResult (bump STRATEGIES_PER_EXECUTION gf)
                      = lastExecutionResult g)
          by (rewrite <- Hl; destruct gf; reflexivity).
        rewrite Hb1 in Hr. rewrite Hb2 in Hc2. rewrite Hb3 in Hcase.
        split; [exact Hr |].
        destruct (outcome (run (deposit (profitable_at_load env)) tf
                             (bump STRATEGIES_PER_EXECUTION gf) u))
          as [[| | | | ] | |]; try contradiction.
        -- destruct Hcase as (_ & _ & _ & _ & Hdepth). auto.
        -- destruct Hcase as (_ & Hdepth). auto.
        -- auto.
  - rewrite (run_finished _ _ _ u _ _ _
               (advance_settle_no_signer env balance tf gf Hs)).
    cbn [outcome final]. rewrite Hl, Hc, Hu. split; [lia | auto].
Qed.

(** X11.  A balance of at least [MIN_GAS_ETH] passes the funding check
    of the tick, but with a positive signal and less than
    [AGGREGATE_PROFIT_ETH] at the read inside [transferEth] the tick
    returns the failed deposit with the insufficient-balance message:
    450 checks counted, one call of [transferEth], nothing submitted,
    nothing realized, one time stamp recorded. *)
Theorem tick_with_too_little_for_the_deposit :
  forall env now g p w t1 t2 b1 b2 rest,
    provider g = Some p -> signer g = Some w ->
    MIN_GAS_ETH <= b1 -> b2 < AGGREGATE_PROFIT_ETH ->
    In true (signals_read env) ->
    run (executeStrategyTrade env) now g
      (reply_at t1 (RespBalance b1) :: reply_at t2 (RespBalance b2) :: rest)
    = {| final :=
           set_lastExecutionResult (Stamped (lastExecutionResult g) t2)
             (set_totalStrategiesExecuted (totalStrategiesExecuted g + 450) g);
         outcome :=
           Returned (DepositFailed (error_message InsufficientFunds)
                       AGGREGATE_PROFIT_ETH);
         trace := [Issued (ReqBalance p (address w));
                   TransferCalled AGGREGATE_PROFIT_ETH (address w);
                   Issued (ReqBalance p (address w))];
         finished_at := t2; unread := rest |}.
Proof.
  intros env now g p w t1 t2 b1 b2 rest Hp Hs Hge Hlt Hin.
  rewrite (tick_connected env now g p w t1 b1 _ Hp Hs).
  rewrite (run_settle_funded env b1 t1 g w _ Hs Hge).
  apply positive_signal_counts, Nat.eqb_neq in Hin. rewrite Hin.
  generalize (profitable_at_load env). intro n.
  destruct g as [pg sg ? ? ? ?]. simpl in Hp, Hs. subst pg sg.
  apply Z.ltb_lt in Hlt.
  unfold run, deposit, transferEth, record_last_execution, bump; simpl.
  rewrite Hlt; simpl. now rewrite resume_finished.
Qed.

Lemma tick_with_too_little_for_the_deposit_witness :
  outcome (run (executeStrategyTrade env_keyed) 0 connected_globals
             [reply_at 1 (RespBalance (ether / 2));
              reply_at 2 (RespBalance (ether / 2))])
  = Returned (DepositFailed (error_message InsufficientFunds)
                AGGREGATE_PROFIT_ETH).
Proof.
  rewrite (tick_with_too_little_for_the_deposit env_keyed 0 connected_globals
             sample_provider sample_wallet 1 2 (ether / 2) (ether / 2) []).
  - reflexivity.
  - reflexivity.
  - reflexivity.
  - vm_compute. discriminate.
  - reflexivity.
  - vm_compute. left. reflexivity.
Defined.

(** X12.  A tick that goes through returns the deposit object with the
    number of positive signals (between 1 and 450), the fixed amounts,
    the signer's address, the hash of the transaction and the block of
    the receipt; it counts 450 checks, adds [AGGREGATE_PROFIT_USD] to the
    realized total, submits [AGGREGATE_PROFIT_ETH] to the signer's own
    address with gas limit 25000, and consumes five replies. *)
Theorem tick_deposits :
  forall env now g p w b1 b2 fees tx receipt t1 t2 t3 t4 t5 rest,
    provider g = Some p -> signer g = Some w ->
    MIN_GAS_ETH <= b1 -> AGGREGATE_PROFIT_ETH <= b2 ->
    In true (signals_read env) ->
    let r := run (executeStrategyTrade env) now g
               (reply_at t1 (RespBalance b1) :: reply_at t2 (RespBalance b2)
                :: reply_at t3 (RespFeeData fees) :: reply_at t4 (RespTx tx)
                :: reply_at t5 (RespReceipt receipt) :: rest) in
    outcome r
    = Returned (Deposited (List.length (filter (fun s => s) (signals_read env)))
                  AGGREGATE_PROFIT_USD AGGREGATE_PROFIT_ETH (address w)
                  (hash tx) (blockNumber receipt))
    /\ (1 <= List.length (filter (fun s => s) (signals_read env)) <= 450)%nat
    /\ final r
       = set_lastExecutionResult (Stamped (lastExecutionResult g) t5)
           (set_totalRealizedToTreasury
              (totalRealizedToTreasury g + AGGREGATE_PROFIT_USD)
              (set_totalStrategiesExecuted (totalStrategiesExecuted g + 450) g))
    /\ In (Issued (ReqSendTransaction w
                     {| to := address w; value := AGGREGATE_PROFIT_ETH;
                        gasLimit := 25000;
                        tx_maxFeePerGas := maxFeePerGas fees;
                        tx_maxPriorityFeePerGas := maxPriorityFeePerGas fees |}))
          (trace r)
    /\ unread r = rest.
Proof.
  intros env now g p w b1 b2 fees tx receipt t1 t2 t3 t4 t5 rest
         Hp Hs Hge1 Hge2 Hin.
  cbv zeta.
  rewrite (tick_connected env now g p w t1 b1 _ Hp Hs).
  rewrite (run_settle_funded env b1 t1 g w _ Hs Hge1).
  pose proof (profitable_at_load_bound env) as Hbound.
  apply positive_signal_counts in Hin.
  rewrite <- profitable_at_load_signals.
  destruct (Nat.eqb_spec (profitable_at_load env) 0) as [Hz | _];
    [contradiction |].
  revert Hin Hbound. generalize (profitable_at_load env). intros n Hin Hbound.
  destruct g as [pg sg ? ? ? ?]. simpl in Hp, Hs. subst pg sg.
  apply Z.ltb_ge in Hge2.
  unfold run, deposit, transferEth, record_last_execution, bump; simpl.
  rewrite Hge2; simpl. rewrite resume_finished; simpl.
  repeat split; try lia.
  do 4 right. left. reflexivity.
Qed.

Lemma tick_deposits_witness :
  outcome (run (executeStrategyTrade env_keyed) 1000 connected_globals
             (good_replies 1000))
  = Returned (Deposited (List.length (filter (fun s => s) (signals_read env_keyed)))
                AGGREGATE_PROFIT_USD AGGREGATE_PROFIT_ETH
                (address sample_wallet) (hash sample_tx) 100).
Proof.
  apply (tick_deposits env_keyed 1000 connected_globals sample_provider
           sample_wallet (5 * ether) (5 * ether) sample_fees sample_tx
           {| blockNumber := 100 |} 1000 1001 1002 1003 1004 []).
  - reflexivity.
  - reflexivity.
  - vm_compute. discriminate.
  - vm_compute. discriminate.
  - vm_compute. left. reflexivity.
Defined.

(** ** The manual trigger, the status route and start-up *)

(** X13.  The manual trigger runs the tick and nothing else: same final
    state, same requests, same replies consumed, and its body is the
    tick's result.  Its HTTP status is 400 for "key not set", "needs
    funding" and a failed deposit with a non-empty message, and 200 for
    "no profitable path", a deposit, and a failed deposit whose message
    is empty. *)
Theorem manual_trigger_runs_the_tick :
  forall env now g replies,
    let tick := run (executeStrategyTrade env) now g replies in
    let http := run (execute_arbitrage_handler env) now g replies in
    final http = final tick
    /\ trace http = trace tick
    /\ unread http = unread tick
    /\ match outcome tick with
       | Returned result =>
           outcome http = Returned (arbitrage_status result, result)
       | Threw e => outcome http = Threw e
       | Pending q => outcome http = Pending q
       end
    /\ arbitrage_status KeyNotSet = 400
    /\ (forall b m a, arbitrage_status (NeedsFunding b m a) = 400)
    /\ arbitrage_status NoProfitablePath = 200
    /\ (forall k usd eth a h b, arbitrage_status (Deposited k usd eth a h b) = 200)
    /\ (forall msg eth,
          arbitrage_status (DepositFailed msg eth)
          = if String.eqb msg "" then 200 else 400).
Proof.
  intros env now g replies. cbv zeta.
  unfold execute_arbitrage_handler. rewrite run_bind. unfold then_run.
  destruct (outcome (run (executeStrategyTrade env) now g replies))
    as [result | e | q].
  - assert (Hadv : forall t g',
              advance (match result_error result with
                       | None | Some "" => Ret (200, result)
                       | Some _ => Ret (400, result)
                       end) t g'
              = {| seg_globals := g'; seg_events := [];
                   seg_paused := Finished (arbitrage_status result, result) |}).
    { intros t g'. unfold arbitrage_status.
      destruct (result_error result) as [[| c s] |]; reflexivity. }
    rewrite (run_finished _ _ _ _ _ _ _ (Hadv _ _)). simpl.
    rewrite app_nil_r. repeat split.
    intros msg eth. unfold arbitrage_status; simpl. now destruct msg.
  - simpl. repeat split.
    intros msg eth. unfold arbitrage_status; simpl. now destruct msg.
  - simpl. repeat split.
    intros msg eth. unfold arbitrage_status; simpl. now destruct msg.
Qed.




(** X15.  A status read with provider and signer in place issues the
    one balance read and answers with the state as it is, the balance
    read, the signer's address, "robust_connected" and the arrival time
    of the reply. *)
Theorem status_when_connected :
  forall env now g p w t b rest,
    provider g = Some p -> signer g = Some w ->
    run (status_handler env) now g (reply_at t (RespBalance b) :: rest)
    = {| final := g;
         outcome :=
           Returned {| status := monitorStatus g;
                       blockchainConnection := "robust_connected";
                       treasuryWallet := address w;
                       treasuryBalance := b;
                       totalRealizedToTreasuryUSD := totalRealizedToTreasury g;
                       status_totalStrategiesExecuted := totalStrategiesExecuted g;
                       status_lastExecutionResult := lastExecutionResult g;
                       status_timestamp := t |};
         trace := [Issued (ReqBalance p (address w))];
         finished_at := t; unread := rest |}.
Proof.
  intros env now g p w t b rest Hp Hs.
  destruct g as [pg sg ? ? ? ?]. simpl in Hp, Hs. subst pg sg.
  unfold run, status_handler, status_body, getTreasuryBalance, get, clock; simpl.
  now rewrite resume_finished.
Qed.

Lemma status_when_connected_witness :
  final (run (status_handler env_keyed) 0 connected_globals
           [reply_at 1 (RespBalance 7)]) = connected_globals.
Proof.
  rewrite (status_when_connected env_keyed 0 connected_globals sample_provider
             sample_wallet 1 7 []).
  - reflexivity.
  - reflexivity.
  - reflexivity.
Defined.

(** X16.  Start-up begins the timer loop also when the first connection
    attempt fails: the first tick follows at once and opens with a
    second connection probe. *)
Theorem startup_ticks_after_a_failed_connection :
  forall env now g t e rest,
    let r := run (startup env) now g (reply_at t (RespError e) :: rest) in
    firstn 2 (trace r)
    = [Issued (ReqBlockNumber (built_provider env));
       Issued (ReqBlockNumber (built_provider env))]
    /\ (rest = [] ->
        outcome r = Pending (ReqBlockNumber (built_provider env))
        /\ monitorStatus (final r) = "connecting"
        /\ provider (final r) = None).
Proof.
  intros env now g t e rest. destruct g.
  unfold run, startup, timer_callback, executeStrategyTrade,
    getTreasuryBalance, initProvider; simpl.
  split; [reflexivity |]. intros ->. simpl. repeat split.
Qed.

Lemma startup_ticks_after_a_failed_connection_witness :
  outcome (run (startup env_keyed) 0 initial_globals
             [reply_at 1 (RespError (JsError "all endpoints unreachable"))])
  = Pending (ReqBlockNumber (built_provider env_keyed)).
Proof.
  apply (startup_ticks_after_a_failed_connection env_keyed 0 initial_globals 1
           (JsError "all endpoints unreachable") []).
  reflexivity.
Defined.

(** ** Withdrawals *)

Ltac withdraw_step invalid :=
  match goal with
  | |- context [resume _ _ _ (Finished _)] => rewrite resume_finished
  | |- context [resume _ _ _ (Raised _)] => rewrite resume_raised
  | |- context [resume ?l _ _ (Suspended _ _)] =>
      is_var l; destruct l as [| [? [? | ? | ? | ? | ? | ?]] ?]
  | |- context [if ?b <? ?c then _ else _] => destruct (b <? c)
  | |- context [if invalid ?a ?b then _ else _] => destruct (invalid a b)
  end; simpl.

(** X17.  Without signer a withdrawal is refused with "key not set"
    whatever the amount: no request is issued and nothing is assigned. *)
Theorem withdraw_without_signer :
  forall env invalid amount now g replies,
    signer g = None ->
    run (withdraw_handler env invalid amount) now g replies
    = {| final := g; outcome := Returned WithdrawKeyNotSet; trace := [];
         finished_at := now; unread := replies |}.
Proof.
  intros env invalid amount now g replies Hs.
  destruct g as [pg sg ? ? ? ?]. simpl in Hs. subst sg.
  unfold run, withdraw_handler; simpl. now rewrite resume_finished.
Qed.

Lemma withdraw_without_signer_witness :
  outcome (run (withdraw_handler env_keyless (fun _ _ => false) ether) 0
             disconnected_globals (good_replies 0))
  = Returned WithdrawKeyNotSet.
Proof.
  rewrite (withdraw_without_signer env_keyless (fun _ _ => false) ether 0
             disconnected_globals (good_replies 0)).
  - reflexivity.
  - reflexivity.
Defined.

(** X18.  A withdrawal never throws (every error becomes an answer),
    never touches the counters or the last execution result, and calls
    [transferEth] at most once, with the requested amount and
    [COINBASE_WALLET] as recipient. *)
Theorem withdraw_frame :
  forall env invalid amount now g replies,
    let r := run (withdraw_handler env invalid amount) now g replies in
    (forall e, outcome r <> Threw e)
    /\ totalStrategiesExecuted (final r) = totalStrategiesExecuted g
    /\ totalRealizedToTreasury (final r) = totalRealizedToTreasury g
    /\ lastExecutionResult (final r) = lastExecutionResult g
    /\ (transfers (trace r) = []
        \/ transfers (trace r) = [TransferCalled amount COINBASE_WALLET]).
Proof.
  intros env invalid amount now g replies.
  split_globals g;
    unfold run, withdraw_handler, getTreasuryBalance, initProvider,
      new_Wallet, transferEth; simpl.
  all: try split_env env.
  all: repeat withdraw_step invalid.
  all: repeat split; try discriminate; auto.
Qed.

(** X19.  A withdrawal whose amount fails the test of line 322 is
    refused after the one balance read with the balance read;
    [transferEth] is not called and nothing is assigned. *)
Theorem withdraw_rejected_amount :
  forall env invalid amount now g p w t b rest,
    provider g = Some p -> signer g = Some w ->
    invalid amount b = true ->
    run (withdraw_handler env invalid amount) now g
      (reply_at t (RespBalance b) :: rest)
    = {| final := g; outcome := Returned (WithdrawInvalid b);
         trace := [Issued (ReqBalance p (address w))];
         finished_at := t; unread := rest |}.
Proof.
  intros env invalid amount now g p w t b rest Hp Hs Hinv.
  destruct g as [pg sg ? ? ? ?]. simpl in Hp, Hs. subst pg sg.
  unfold run, withdraw_handler, getTreasuryBalance; simpl.
  rewrite Hinv; simpl. now rewrite resume_finished.
Qed.

Lemma withdraw_rejected_amount_witness :
  outcome (run (withdraw_handler env_keyed
                  (fun a b => (a <=? 0) || (b - 3 * 10 ^ 15 <? a))
                  (5 * ether)) 0 connected_globals
             [reply_at 1 (RespBalance ether)])
  = Returned (WithdrawInvalid ether).
Proof.
  rewrite (withdraw_rejected_amount env_keyed
             (fun a b => (a <=? 0) || (b - 3 * 10 ^ 15 <? a))
             (5 * ether) 0 connected_globals sample_provider sample_wallet
             1 ether []).
  - reflexivity.
  - reflexivity.
  - reflexivity.
  - reflexivity.
Defined.

(** X20.  A withdrawal that goes through reads the balance twice (once
    for the test of line 322, once inside [transferEth]), submits the
    amount to [COINBASE_WALLET] and answers with the hash, the amount,
    the signer's address, the recipient and the block. *)
Theorem withdraw_done :
  forall env invalid amount now g p w b1 b2 fees tx receipt t1 t2 t3 t4 t5 rest,
    provider g = Some p -> signer g = Some w ->
    invalid amount b1 = false -> amount <= b2 ->
    run (withdraw_handler env invalid amount) now g
      (reply_at t1 (RespBalance b1) :: reply_at t2 (RespBalance b2)
       :: reply_at t3 (RespFeeData fees) :: reply_at t4 (RespTx tx)
       :: reply_at t5 (RespReceipt receipt) :: rest)
    = {| final := g;
         outcome := Returned (WithdrawDone (hash tx) amount (address w)
                                COINBASE_WALLET (blockNumber receipt));
         trace :=
           [Issued (ReqBalance p (address w));
            TransferCalled amount COINBASE_WALLET;
            Issued (ReqBalance p (address w));
            Issued (ReqFeeData p);
            Issued (ReqSendTransaction w
                      {| to := COINBASE_WALLET; value := amount;
                         gasLimit := 25000;
                         tx_maxFeePerGas := maxFeePerGas fees;
                         tx_maxPriorityFeePerGas := maxPriorityFeePerGas fees |});
            Issued (ReqWait tx None None)];
         finished_at := t5; unread := rest |}.
Proof.
  intros env invalid amount now g p w b1 b2 fees tx receipt t1 t2 t3 t4 t5 rest
         Hp Hs Hinv Hle.
  destruct g as [pg sg ? ? ? ?]. simpl in Hp, Hs. subst pg sg.
  apply Z.ltb_ge in Hle.
  unfold run, withdraw_handler, getTreasuryBalance, transferEth; simpl.
  rewrite Hinv; simpl. rewrite Hle; simpl. now rewrite resume_finished.
Qed.

Lemma withdraw_done_witness :
  outcome (run (withdraw_handler env_keyed
                  (fun a b => (a <=? 0) || (b - 3 * 10 ^ 15 <? a)) ether)
             0 connected_globals
             [reply_at 0 (RespBalance (5 * ether));
              reply_at 1 (RespBalance (5 * ether));
              reply_at 2 (RespFeeData sample_fees);
              reply_at 3 (RespTx sample_tx);
              reply_at 4 (RespReceipt {| blockNumber := 100 |})])
  = Returned (WithdrawDone "0xabc" ether sample_address COINBASE_WALLET 100).
Proof.
  rewrite (withdraw_done env_keyed
             (fun a b => (a <=? 0) || (b - 3 * 10 ^ 15 <? a)) ether 0
             connected_globals sample_provider sample_wallet
             (5 * ether) (5 * ether) sample_fees sample_tx
             {| blockNumber := 100 |} 0 1 2 3 4 []).
  - reflexivity.
  - reflexivity.
  - reflexivity.
  - reflexivity.
  - vm_compute. discriminate.
Defined.

(** X21.  When the amount passes the test on the first balance read but
    exceeds the second one, read inside [transferEth], the withdrawal
    answers 500 with the insufficient-balance message; nothing is
    submitted and nothing is assigned. *)
Theorem withdraw_balance_drops_between_reads :
  forall env invalid amount now g p w b1 b2 t1 t2 rest,
    provider g = Some p -> signer g = Some w ->
    invalid amount b1 = false -> b2 < amount ->
    let r := run (withdraw_handler env invalid amount) now g
               (reply_at t1 (RespBalance b1) :: reply_at t2 (RespBalance b2)
                :: rest) in
    outcome r = Returned (WithdrawError (error_message InsufficientFunds))
    /\ withdraw_status (WithdrawError (error_message InsufficientFunds)) = 500
    /\ filter is_submission (trace r) = []
    /\ final r = g.
Proof.
  intros env invalid amount now g p w b1 b2 t1 t2 rest Hp Hs Hinv Hlt.
  destruct g as [pg sg ? ? ? ?]. simpl in Hp, Hs. subst pg sg.
  apply Z.ltb_lt in Hlt.
  unfold run, withdraw_handler, getTreasuryBalance, transferEth; simpl.
  rewrite Hinv; simpl. rewrite Hlt; simpl. rewrite resume_finished; simpl.
  repeat split.
Qed.

Lemma withdraw_balance_drops_between_reads_witness :
  outcome (run (withdraw_handler env_keyed
                  (fun a b => (a <=? 0) || (b - 3 * 10 ^ 15 <? a)) ether)
             0 connected_globals
             [reply_at 1 (RespBalance (5 * ether)); reply_at 2 (RespBalance 7)])
  = Returned (WithdrawError (error_message InsufficientFunds)).
Proof.
  apply (withdraw_balance_drops_between_reads env_keyed
           (fun a b => (a <=? 0) || (b - 3 * 10 ^ 15 <? a)) ether 0
           connected_globals sample_provider sample_wallet (5 * ether) 7 1 2 []).
  - reflexivity.
  - reflexivity.
  - reflexivity.
  - reflexivity.
Defined.

(** ** Relations kept along every interleaving *)

Section Respects.

Variable R : Globals -> Globals -> Prop.
Hypothesis R_refl : forall g, R g g.
Hypothesis R_trans : forall a b c, R a b -> R b c -> R a c.

Lemma respects_bind {A B : Type} (p : Prog A) (f : A -> Prog B) :
  respects R p -> (forall a, respects R (f a)) -> respects R (bind p f).
Proof.
  intros Hp Hf.
  induction p as [a | e | k IH | u k IH | k IH | ev k IH | r k IH]; simpl in *.
  - apply Hf.
  - exact I.
  - intro g. apply IH, Hp.
  - destruct Hp as (Hu & Hk). split; [exact Hu | apply IH, Hk].
  - intro t. apply IH, Hp.
  - apply IH, Hp.
  - intro x. apply IH, Hp.
Qed.

Lemma respects_try_catch {A : Type} (p : Prog A) (h : Error -> Prog A) :
  respects R p -> (forall e, respects R (h e)) -> respects R (try_catch p h).
Proof.
  intros Hp Hh.
  induction p as [a | e | k IH | u k IH | k IH | ev k IH | r k IH]; simpl in *.
  - exact I.
  - apply Hh.
  - intro g. apply IH, Hp.
  - destruct Hp as (Hu & Hk). split; [exact Hu | apply IH, Hk].
  - intro t. apply IH, Hp.
  - apply IH, Hp.
  - intro x. apply IH, Hp.
Qed.

Lemma respects_finally {A : Type} (p : Prog A) (f : Prog unit) :
  respects R p -> respects R f -> respects R (finally p f).
Proof.
  intros Hp Hf.
  induction p as [a | e | k IH | u k IH | k IH | ev k IH | r k IH]; simpl in *.
  - apply respects_bind; [exact Hf | intro; exact I].
  - apply respects_bind; [exact Hf | intro; exact I].
  - intro g. apply IH, Hp.
  - destruct Hp as (Hu & Hk). split; [exact Hu | apply IH, Hk].
  - intro t. apply IH, Hp.
  - apply IH, Hp.
  - intro x. apply IH, Hp.
Qed.

Lemma advance_respects {A : Type} (p : Prog A) now :
  respects R p ->
  forall g,
    R g (seg_globals (advance p now g))
    /\ continuation_respects R (seg_paused (advance p now g)).
Proof.
  induction p as [a | e | k IH | u k IH | k IH | ev k IH | r k IH];
    simpl; intros Hp g.
  - split; [apply R_refl | exact I].
  - split; [apply R_refl | exact I].
  - apply IH, Hp.
  - destruct Hp as (Hu & Hk). destruct (IH Hk (u g)) as (H1 & H2).
    split; [eapply R_trans; [apply Hu | exact H1] | exact H2].
  - apply IH, Hp.
  - apply (IH Hp g).
  - split; [apply R_refl | exact Hp].
Qed.

Lemma resume_respects {A : Type} (replies : list Reply) :
  forall now g (s : Paused A),
    continuation_respects R s -> R g (final (resume replies now g s)).
Proof.
  induction replies as [| rep rest IH]; intros now g s Hs.
  - destruct s; simpl; apply R_refl.
  - destruct s as [a | e | r k]; simpl; try apply R_refl.
    destruct (advance_respects (k (response rep)) (arrival rep) (Hs _) g)
      as (H1 & H2).
    eapply R_trans; [exact H1 | apply IH, H2].
Qed.

Lemma run_respects {A : Type} (p : Prog A) now g replies :
  respects R p -> R g (final (run p now g replies)).
Proof.
  intro Hp. unfold run; simpl.
  destruct (advance_respects p now Hp g) as (H1 & H2).
  eapply R_trans; [exact H1 | apply resume_respects, H2].
Qed.

Lemma settle_segment_respects s others (seg : Segment Completion) :
  Forall (fun task => forall x, respects R (continuation task x)) others ->
  continuation_respects R (seg_paused seg) ->
  tasks_respect R (settle_segment s others seg).
Proof.
  intros Ho Hs. unfold tasks_respect, settle_segment.
  destruct (seg_paused seg) as [a | e | r k]; simpl; try exact Ho.
  apply Forall_app. split; [exact Ho |].
  constructor; [exact Hs | constructor].
Qed.

Lemma sys_step_respects env now t s :
  respects R (timer_callback env) -> respects R (manual_callback env) ->
  tasks_respect R s ->
  R (globals s) (globals (sys_step env now t s))
  /\ tasks_respect R (sys_step env now t s).
Proof.
  intros Ht Hm Hs.
  assert (Hglobals : forall others (seg : Segment Completion),
             globals (settle_segment s others seg) = seg_globals seg).
  { intros others seg. unfold settle_segment.
    now destruct (seg_paused seg). }
  destruct t as [| | i x]; simpl.
  - destruct (advance_respects (timer_callback env) now Ht (globals s))
      as (H1 & H2).
    rewrite Hglobals. split; [exact H1 |].
    now apply settle_segment_respects.
  - destruct (advance_respects (manual_callback env) now Hm (globals s))
      as (H1 & H2).
    rewrite Hglobals. split; [exact H1 |].
    now apply settle_segment_respects.
  - destruct (nth_error (in_flight s) i) as [task |] eqn:Hnth.
    + assert (Htask : forall y, respects R (continuation task y)).
      { unfold tasks_respect in Hs. rewrite Forall_forall in Hs.
        apply Hs. eapply nth_error_In; eassumption. }
      destruct (advance_respects (continuation task x) now (Htask x) (globals s))
        as (H1 & H2).
      rewrite Hglobals. split; [exact H1 |].
      apply settle_segment_respects; [| exact H2].
      unfold remove_nth. apply Forall_app. split.
      * apply Forall_forall. intros y Hy.
        unfold tasks_respect in Hs. rewrite Forall_forall in Hs.
        apply Hs. rewrite <- (firstn_skipn i (in_flight s)).
        apply in_or_app. now left.
      * apply Forall_forall. intros y Hy.
        unfold tasks_respect in Hs. rewrite Forall_forall in Hs.
        apply Hs. rewrite <- (firstn_skipn (S i) (in_flight s)).
        apply in_or_app. now right.
    + split; [apply R_refl | exact Hs].
Qed.

Lemma sys_run_respects env schedule :
  respects R (timer_callback env) -> respects R (manual_callback env) ->
  forall s,
    tasks_respect R s ->
    R (globals s) (globals (sys_run env schedule s))
    /\ tasks_respect R (sys_run env schedule s).
Proof.
  intros Ht Hm.
  induction schedule as [| [now t] rest IH]; intros s Hs; simpl.
  - split; [apply R_refl | exact Hs].
  - destruct (sys_step_respects env now t s Ht Hm Hs) as (H1 & H2).
    destruct (IH _ H2) as (H3 & H4).
    split; [eapply R_trans; eassumption | exact H4].
Qed.

(** the functions of the module make no other assignments than these *)
Hypothesis R_connection : admits_connection_updates R.
Hypothesis R_accounting : admits_accounting_updates R.

Lemma modify_respects (f : Globals -> Globals) :
  (forall g, R g (f g)) -> respects R (modify f).
Proof. intro H. simpl. auto. Qed.

Lemma initProvider_respects env : respects R (initProvider env).
Proof.
  destruct R_connection as (Hm & Hp & Hs).
  unfold initProvider, new_Wallet; simpl.
  split; [apply Hm |]. intro x.
  destruct x; simpl; repeat split; auto.
  destruct (PRIVATE_KEY env) as [key |]; simpl; auto.
  intro g. destruct (Wallet_address env key); simpl; repeat split; auto.
Qed.

Lemma getTreasuryBalance_respects env : respects R (getTreasuryBalance env).
Proof.
  unfold getTreasuryBalance.
  apply respects_try_catch; [| intro; exact I].
  apply respects_bind; [simpl; auto |]. intro g.
  apply respects_bind.
  - destruct (is_null (provider g) || is_null (signer g)); [| exact I].
    apply respects_bind; [apply initProvider_respects | intro; exact I].
  - intros _. simpl. intro g'.
    destruct (signer g'); [| exact I].
    destruct (provider g'); simpl; [| exact I].
    intro x. destruct x; exact I.
Qed.

Lemma transferEth_respects amount recipient :
  respects R (transferEth amount recipient).
Proof.
  unfold transferEth; simpl. intro g.
  destruct (is_null (signer g)); [exact I |].
  destruct (provider g); simpl; [| exact I].
  destruct (signer g); simpl; [| exact I].
  intro x. destruct x; simpl; try exact I.
  destruct (wei <? amount); simpl; [exact I |].
  intro g1. destruct (provider g1); simpl; [| exact I].
  intro x1. destruct x1; simpl; try exact I.
  intro g2. destruct (signer g2); simpl; [| exact I].
  intro x2. destruct x2; simpl; try exact I.
  intro x3. destruct x3; exact I.
Qed.

Lemma search_respects env : forall n i count ids,
  respects R (search env n i count ids).
Proof.
  destruct R_accounting as (Hc & _).
  induction n as [| n IH]; intros i count ids.
  - exact I.
  - unfold search; fold search.
    destruct (nth_error (STRATEGIES env) i); [| exact I].
    apply respects_bind; [apply modify_respects, Hc | intro; apply IH].
Qed.

Lemma deposit_respects n : respects R (deposit n).
Proof.
  destruct R_accounting as (_ & Hu & Hl).
  unfold deposit. apply respects_finally.
  - apply respects_try_catch; [| intro; exact I].
    apply respects_bind; [simpl; auto |]. intro g.
    apply respects_bind; [destruct (signer g); exact I |]. intro w.
    apply respects_bind; [apply transferEth_respects |]. intros [tx receipt].
    apply respects_bind; [apply modify_respects, Hu |]. intros _.
    simpl. intro g'. destruct (signer g'); exact I.
  - unfold record_last_execution; simpl. intro t. split; [apply Hl | exact I].
Qed.

Lemma settle_respects env balance : respects R (settle env balance).
Proof.
  unfold settle.
  apply respects_bind; [simpl; auto |]. intro g.
  destruct (signer g); [| exact I].
  destruct (balance <? MIN_GAS_ETH); [exact I |].
  apply respects_bind; [apply search_respects |]. intros [count ids].
  destruct (Nat.eqb count 0); [exact I | apply deposit_respects].
Qed.

Lemma executeStrategyTrade_respects env : respects R (executeStrategyTrade env).
Proof.
  unfold executeStrategyTrade.
  apply respects_bind;
    [apply getTreasuryBalance_respects | intro; apply settle_respects].
Qed.

Lemma timer_callback_respects env : respects R (timer_callback env).
Proof.
  unfold timer_callback.
  apply respects_bind; [apply executeStrategyTrade_respects | intro; exact I].
Qed.

Lemma manual_callback_respects env : respects R (manual_callback env).
Proof.
  unfold manual_callback, execute_arbitrage_handler.
  apply respects_bind; [| intros [code r]; exact I].
  apply respects_bind; [apply executeStrategyTrade_respects |].
  intro r. destruct (result_error r) as [[| c s] |]; exact I.
Qed.

Lemma startup_respects env : respects R (startup env).
Proof.
  unfold startup.
  apply respects_bind;
    [apply initProvider_respects | intro; apply timer_callback_respects].
Qed.

Lemma status_handler_respects env : respects R (status_handler env).
Proof.
  unfold status_handler.
  apply respects_bind; [apply getTreasuryBalance_respects |].
  intro b. unfold status_body; simpl. auto.
Qed.

Lemma withdraw_handler_respects env invalid amount :
  respects R (withdraw_handler env invalid amount).
Proof.
  unfold withdraw_handler.
  apply respects_try_catch; [| intro; exact I].
  apply respects_bind; [simpl; auto |]. intro g.
  destruct (is_null (signer g)); [exact I |].
  apply respects_bind; [apply getTreasuryBalance_respects |]. intro b.
  destruct (invalid amount b); [exact I |].
  apply respects_bind; [apply transferEth_respects |]. intros [tx receipt].
  simpl. intro g'. destruct (signer g'); exact I.
Qed.

Lemma reachable_respects env schedule g :
  R g (globals (sys_run env schedule (boot g)))
  /\ tasks_respect R (sys_run env schedule (boot g)).
Proof.
  apply (sys_run_respects env schedule
           (timer_callback_respects env) (manual_callback_respects env)
           (boot g)).
  constructor.
Qed.

End Respects.

Lemma counters_le_refl g : counters_le g g.
Proof. unfold counters_le. lia. Qed.

Lemma counters_le_trans a b c :
  counters_le a b -> counters_le b c -> counters_le a c.
Proof. unfold counters_le. lia. Qed.

Lemma counters_le_connection : admits_connection_updates counters_le.
Proof.
  unfold admits_connection_updates, counters_le. repeat split; simpl; lia.
Qed.

Lemma counters_le_accounting : admits_accounting_updates counters_le.
Proof.
  assert (H : 0 <= AGGREGATE_PROFIT_USD) by (vm_compute; discriminate).
  unfold admits_accounting_updates, counters_le. repeat split; simpl; lia.
Qed.

(** X22.  Along every schedule of timer firings, manual triggers and
    deliveries, overlapping or not, neither counter ever decreases. *)
Theorem counters_never_decrease :
  forall env schedule later g,
    counters_le g (globals (sys_run env schedule (boot g)))
    /\ counters_le (globals (sys_run env schedule (boot g)))
         (globals (sys_run env later (sys_run env schedule (boot g)))).
Proof.
  intros env schedule later g.
  destruct (reachable_respects counters_le counters_le_refl counters_le_trans
              counters_le_connection counters_le_accounting env schedule g)
    as (H1 & H2).
  split; [exact H1 |].
  refine (proj1 (sys_run_respects counters_le counters_le_refl
                   counters_le_trans env later
                   (timer_callback_respects counters_le counters_le_connection
                      counters_le_accounting env)
                   (manual_callback_respects counters_le counters_le_connection
                      counters_le_accounting env)
                   _ H2)).
Qed.

Lemma keeps_stamps_only_connection : admits_connection_updates keeps_stamps_only.
Proof.
  unfold admits_connection_updates, keeps_stamps_only. repeat split; auto.
Qed.

Lemma keeps_stamps_only_accounting : admits_accounting_updates keeps_stamps_only.
Proof.
  unfold admits_accounting_updates, keeps_stamps_only. repeat split; auto.
Qed.

(** X23.  Along every schedule, [lastExecutionResult] stays made of
    [null] and time stamps: started with such a value it never holds a
    result object, at any depth. *)
Theorem no_result_object_is_ever_recorded :
  forall env schedule g,
    stamps_only (lastExecutionResult g) ->
    stamps_only (lastExecutionResult (globals (sys_run env schedule (boot g))))
    /\ (forall r,
          lastExecutionResult (globals (sys_run env schedule (boot g)))
          <> Payload r)
    /\ (forall r t,
          lastExecutionResult (globals (sys_run env schedule (boot g)))
          <> Stamped (Payload r) t).
Proof.
  intros env schedule g Hg.
  assert (H : stamps_only
                (lastExecutionResult (globals (sys_run env schedule (boot g))))).
  { refine (proj1 (reachable_respects keeps_stamps_only _ _
                     keeps_stamps_only_connection keeps_stamps_only_accounting
                     env schedule g) Hg).
    - intros a Ha. exact Ha.
    - intros a b c Hab Hbc Ha. exact (Hbc (Hab Ha)). }
  split; [exact H | split].
  - intros r Heq. rewrite Heq in H. exact H.
  - intros r t Heq. rewrite Heq in H. exact H.
Qed.

Lemma no_result_object_is_ever_recorded_witness :
  stamps_only
    (lastExecutionResult
       (globals (sys_run env_keyed
                   [(0, TimerFired);
                    (10, Delivered 0 (RespBalance (5 * ether)));
                    (20, Delivered 0 (RespBalance (5 * ether)));
                    (30, Delivered 0 (RespFeeData sample_fees));
                    (40, Delivered 0 (RespTx sample_tx));
                    (50, Delivered 0 (RespReceipt {| blockNumber := 100 |}))]
                   (boot connected_globals)))).
Proof.
  exact (proj1 (no_result_object_is_ever_recorded env_keyed
                  [(0, TimerFired);
                   (10, Delivered 0 (RespBalance (5 * ether)));
                   (20, Delivered 0 (RespBalance (5 * ether)));
                   (30, Delivered 0 (RespFeeData sample_fees));
                   (40, Delivered 0 (RespTx sample_tx));
                   (50, Delivered 0 (RespReceipt {| blockNumber := 100 |}))]
                  connected_globals I)).
Defined.

(** ** No tick ever rejects *)

Lemma nothrow_bind {A B : Type} (p : Prog A) (f : A -> Prog B) :
  nothrow p -> (forall a, nothrow (f a)) -> nothrow (bind p f).
Proof.
  intros Hp Hf.
  induction p as [a | e | k IH | u k IH | k IH | ev k IH | r k IH]; simpl in *;
    auto.
Qed.

Lemma nothrow_try_catch {A : Type} (p : Prog A) (h : Error -> Prog A) :
  (forall e, nothrow (h e)) -> nothrow (try_catch p h).
Proof.
  intro Hh.
  induction p as [a | e | k IH | u k IH | k IH | ev k IH | r k IH]; simpl in *;
    auto.
Qed.

Lemma nothrow_finally {A : Type} (p : Prog A) (f : Prog unit) :
  nothrow p -> nothrow f -> nothrow (finally p f).
Proof.
  intros Hp Hf.
  induction p as [a | e | k IH | u k IH | k IH | ev k IH | r k IH]; simpl in *;
    auto.
  - apply nothrow_bind; [exact Hf | intro; exact I].
  - destruct Hp.
Qed.

Lemma nothrow_search env : forall n i count ids,
  (i + n <= 450)%nat -> nothrow (search env n i count ids).
Proof.
  induction n as [| n IH]; intros i count ids Hle.
  - exact I.
  - unfold search; fold search. rewrite STRATEGIES_nth by lia.
    apply nothrow_bind; [exact I | intro; apply IH; lia].
Qed.

Lemma nothrow_executeStrategyTrade env : nothrow (executeStrategyTrade env).
Proof.
  unfold executeStrategyTrade. apply nothrow_bind.
  - unfold getTreasuryBalance. apply nothrow_try_catch. intro; exact I.
  - intro balance. unfold settle.
    apply nothrow_bind; [simpl; auto |]. intro g.
    destruct (signer g); [| exact I].
    destruct (balance <? MIN_GAS_ETH); [exact I |].
    apply nothrow_bind;
      [apply nothrow_search; unfold STRATEGIES_PER_EXECUTION; lia |].
    intros [count ids]. destruct (Nat.eqb count 0); [exact I |].
    unfold deposit. apply nothrow_finally.
    + apply nothrow_try_catch. intro; exact I.
    + unfold record_last_execution; simpl. auto.
Qed.

Lemma nothrow_timer_callback env : nothrow (timer_callback env).
Proof.
  unfold timer_callback.
  apply nothrow_bind; [apply nothrow_executeStrategyTrade | intro; exact I].
Qed.

Lemma nothrow_manual_callback env : nothrow (manual_callback env).
Proof.
  unfold manual_callback, execute_arbitrage_handler.
  apply nothrow_bind; [| intros [code r]; exact I].
  apply nothrow_bind; [apply nothrow_executeStrategyTrade |].
  intro r. destruct (result_error r) as [[| c s] |]; exact I.
Qed.

Lemma advance_nothrow {A : Type} (p : Prog A) now :
  nothrow p ->
  forall g,
    match seg_paused (advance p now g) with
    | Finished _ => True
    | Raised _ => False
    | Suspended _ k => forall x, nothrow (k x)
    end.
Proof.
  induction p as [a | e | k IH | u k IH | k IH | ev k IH | r k IH];
    simpl; intros Hp g.
  - exact I.
  - exact Hp.
  - apply IH, Hp.
  - apply (IH Hp (u g)).
  - apply IH, Hp.
  - apply (IH Hp g).
  - exact Hp.
Qed.

Lemma settle_segment_quiet s others (seg : Segment Completion) :
  Forall (fun task => forall x, nothrow (continuation task x)) others ->
  existsb is_thrown (completed s) = false ->
  match seg_paused seg with
  | Finished _ => True
  | Raised _ => False
  | Suspended _ k => forall x, nothrow (k x)
  end ->
  quiet (settle_segment s others seg).
Proof.
  intros Ho Hc Hs. unfold quiet, settle_segment.
  destruct (seg_paused seg) as [a | e | r k]; simpl.
  - split; [exact Ho |]. rewrite existsb_app, Hc. reflexivity.
  - destruct Hs.
  - split; [| exact Hc]. apply Forall_app. split; [exact Ho |].
    constructor; [exact Hs | constructor].
Qed.

Lemma sys_step_quiet env now t s : quiet s -> quiet (sys_step env now t s).
Proof.
  intros (Ht & Hc).
  destruct t as [| | i x]; simpl.
  - apply settle_segment_quiet; auto.
    apply advance_nothrow, nothrow_timer_callback.
  - apply settle_segment_quiet; auto.
    apply advance_nothrow, nothrow_manual_callback.
  - destruct (nth_error (in_flight s) i) as [task |] eqn:Hnth;
      [| split; assumption].
    rewrite Forall_forall in Ht.
    apply settle_segment_quiet; auto.
    + unfold remove_nth. apply Forall_forall. intros y Hy. apply Ht.
      apply in_app_or in Hy. destruct Hy as [Hy | Hy].
      * rewrite <- (firstn_skipn i (in_flight s)). apply in_or_app. now left.
      * rewrite <- (firstn_skipn (S i) (in_flight s)).
        apply in_or_app. now right.
    + apply advance_nothrow, Ht. eapply nth_error_In; eassumption.
Qed.

(** X24.  Along every schedule no tick and no manual trigger ends in an
    exception: every completed one has returned an object. *)
Theorem no_tick_ever_rejects :
  forall env schedule g,
    existsb is_thrown (completed (sys_run env schedule (boot g))) = false.
Proof.
  intros env schedule g.
  assert (H : forall s, quiet s -> quiet (sys_run env schedule s)).
  { induction schedule as [| [now t] rest IH]; intros s Hs; simpl.
    - exact Hs.
    - apply IH, sys_step_quiet, Hs. }
  apply (H (boot g)). split; [constructor | reflexivity].
Qed.

(** ** The connection variables stay consistent *)

Section Invariant.

Variable I : Globals -> Prop.

Lemma wp_mono {A : Type} (p : Prog A) :
  forall (Q Q' : A -> Globals -> Prop) (E E' : Error -> Globals -> Prop) g,
    (forall a g', Q a g' -> Q' a g') ->
    (forall e g', E e g' -> E' e g') ->
    wp I p Q E g -> wp I p Q' E' g.
Proof.
  induction p as [a | e | k IH | u k IH | k IH | ev k IH | r k IH];
    intros Q Q' E E' g HQ HE H; simpl in *.
  - now apply HQ.
  - now apply HE.
  - eapply IH; eassumption.
  - eapply IH; eassumption.
  - intro t. eapply IH; [exact HQ | exact HE | apply H].
  - eapply IH; eassumption.
  - destruct H as (Hg & Hk). split; [exact Hg |].
    intros x g' Hg'. eapply IH; [exact HQ | exact HE | now apply Hk].
Qed.

Lemma wp_bind {A B : Type} (p : Prog A) (f : A -> Prog B) :
  forall (Q : B -> Globals -> Prop) (E : Error -> Globals -> Prop) g,
    wp I p (fun a g' => wp I (f a) Q E g') E g -> wp I (bind p f) Q E g.
Proof.
  induction p as [a | e | k IH | u k IH | k IH | ev k IH | r k IH];
    intros Q E g H; simpl in *.
  - exact H.
  - exact H.
  - now apply IH.
  - now apply IH.
  - intro t. now apply IH.
  - now apply IH.
  - destruct H as (Hg & Hk). split; [exact Hg |].
    intros x g' Hg'. now apply IH, Hk.
Qed.

Lemma wp_try_catch {A : Type} (p : Prog A) (h : Error -> Prog A) :
  forall (Q : A -> Globals -> Prop) (E : Error -> Globals -> Prop) g,
    wp I p Q (fun e g' => wp I (h e) Q E g') g -> wp I (try_catch p h) Q E g.
Proof.
  induction p as [a | e | k IH | u k IH | k IH | ev k IH | r k IH];
    intros Q E g H; simpl in *.
  - exact H.
  - exact H.
  - now apply IH.
  - now apply IH.
  - intro t. now apply IH.
  - now apply IH.
  - destruct H as (Hg & Hk). split; [exact Hg |].
    intros x g' Hg'. now apply IH, Hk.
Qed.

(** a program whose assignments keep [I] keeps [I] *)
Lemma respects_keeps {A : Type} (R : Globals -> Globals -> Prop) (p : Prog A) :
  (forall g g', R g g' -> I g -> I g') ->
  respects R p -> keeps I p.
Proof.
  intros HR. unfold keeps.
  induction p as [a | e | k IH | u k IH | k IH | ev k IH | r k IH];
    intros Hp g Hg; simpl in *.
  - exact Hg.
  - exact Hg.
  - now apply IH.
  - destruct Hp as (Hu & Hk). apply IH; [exact Hk |].
    eapply HR; [apply Hu | exact Hg].
  - intro t. now apply IH.
  - now apply IH.
  - split; [exact Hg |]. intros x g' Hg'. now apply IH.
Qed.

Lemma keeps_bind {A B : Type} (p : Prog A) (f : A -> Prog B) :
  keeps I p -> (forall a, keeps I (f a)) -> keeps I (bind p f).
Proof.
  intros Hp Hf g Hg. apply wp_bind.
  eapply wp_mono; [| | apply Hp, Hg].
  - intros a g' Hg'. now apply Hf.
  - intros e g' Hg'. exact Hg'.
Qed.

Lemma advance_keeps {A : Type} (p : Prog A) now :
  forall g,
    wp I p (fun _ g' => I g') (fun _ g' => I g') g ->
    paused_keeps I (advance p now g).
Proof.
  unfold paused_keeps.
  induction p as [a | e | k IH | u k IH | k IH | ev k IH | r k IH];
    intros g H; simpl in *.
  - auto.
  - auto.
  - now apply IH.
  - now apply IH.
  - now apply IH.
  - now apply (IH g).
  - destruct H as (Hg & Hk). split; [exact Hg |].
    intros x g' Hg'. now apply Hk.
Qed.

Lemma settle_segment_keeps s others (seg : Segment Completion) :
  Forall (fun task => forall x, keeps I (continuation task x)) others ->
  paused_keeps I seg ->
  I (globals (settle_segment s others seg))
  /\ tasks_keep I (settle_segment s others seg).
Proof.
  intros Ho (Hg & Hk). unfold tasks_keep, settle_segment.
  destruct (seg_paused seg) as [a | e | r k]; simpl; auto.
  split; [exact Hg |]. apply Forall_app. split; [exact Ho |].
  constructor; [exact Hk | constructor].
Qed.

Lemma sys_step_keeps env now t s :
  keeps I (timer_callback env) -> keeps I (manual_callback env) ->
  I (globals s) -> tasks_keep I s ->
  I (globals (sys_step env now t s)) /\ tasks_keep I (sys_step env now t s).
Proof.
  intros Ht Hm Hg Hs.
  destruct t as [| | i x]; simpl.
  - apply settle_segment_keeps; [exact Hs |]. now apply advance_keeps, Ht.
  - apply settle_segment_keeps; [exact Hs |]. now apply advance_keeps, Hm.
  - destruct (nth_error (in_flight s) i) as [task |] eqn:Hnth;
      [| split; assumption].
    unfold tasks_keep in Hs. rewrite Forall_forall in Hs.
    apply settle_segment_keeps.
    + unfold remove_nth. apply Forall_forall. intros y Hy. apply Hs.
      apply in_app_or in Hy. destruct Hy as [Hy | Hy].
      * rewrite <- (firstn_skipn i (in_flight s)). apply in_or_app. now left.
      * rewrite <- (firstn_skipn (S i) (in_flight s)).
        apply in_or_app. now right.
    + apply advance_keeps. apply (Hs task); [| exact Hg].
      eapply nth_error_In; eassumption.
Qed.

Lemma sys_run_keeps env schedule :
  keeps I (timer_callback env) -> keeps I (manual_callback env) ->
  forall s,
    I (globals s) -> tasks_keep I s ->
    I (globals (sys_run env schedule s)) /\ tasks_keep I (sys_run env schedule s).
Proof.
  intros Ht Hm.
  induction schedule as [| [now t] rest IH]; intros s Hg Hs; simpl.
  - split; assumption.
  - destruct (sys_step_keeps env now t s Ht Hm Hg Hs) as (H1 & H2).
    now apply IH.
Qed.

(** the same for a program run on its own *)
Lemma resume_keeps {A : Type} (replies : list Reply) :
  forall now (seg : Segment A),
    paused_keeps I seg ->
    I (final (resume replies now (seg_globals seg) (seg_paused seg))).
Proof.
  induction replies as [| rep rest IH]; intros now seg (Hg & Hk).
  - destruct (seg_paused seg); exact Hg.
  - destruct (seg_paused seg) as [a | e | r k]; simpl; try exact Hg.
    apply (IH (arrival rep) (advance (k (response rep)) (arrival rep) (seg_globals seg))).
    apply advance_keeps. now apply Hk.
Qed.

Lemma run_keeps {A : Type} (p : Prog A) now g replies :
  keeps I p -> I g -> I (final (run p now g replies)).
Proof.
  intros Hp Hg. unfold run; simpl.
  apply resume_keeps, advance_keeps. now apply Hp.
Qed.

End Invariant.

Lemma same_connection_consistent g g' :
  same_connection g g' -> connection_consistent g -> connection_consistent g'.
Proof.
  unfold same_connection, connection_consistent.
  intros (Hp & Hs & Hm). rewrite Hp, Hs, Hm. auto.
Qed.

Lemma same_connection_accounting : admits_accounting_updates same_connection.
Proof.
  unfold admits_accounting_updates, same_connection. repeat split.
Qed.

(** [connection_consistent] after an assignment, from the same before *)
Ltac consistency :=
  match goal with
  | H : connection_consistent _ |- _ =>
      let H1 := fresh in let H2 := fresh in
      let H3 := fresh in let H4 := fresh in
      destruct H as (H1 & H2 & H3 & H4); simpl in H1, H2, H3, H4
  | _ => idtac
  end;
  unfold connection_consistent; simpl;
  split; [| split; [| split]];
  [ intros; try discriminate; auto
  | intros; try discriminate; auto
  | intros; try discriminate; auto
  | auto 6 ].

Lemma initProvider_keeps env : keeps connection_consistent (initProvider env).
Proof.
  intros g Hg. destruct g as [pg sg l m c u].
  unfold initProvider, new_Wallet; simpl.
  split; [consistency |].
  intros x g' Hg'. destruct g' as [pg' sg' l' m' c' u'].
  destruct x; simpl; try solve [consistency].
  destruct (PRIVATE_KEY env) as [key |]; simpl; [| consistency].
  destruct (Wallet_address env key); simpl; consistency.
Qed.

Lemma getTreasuryBalance_keeps env :
  keeps connection_consistent (getTreasuryBalance env).
Proof.
  intros g Hg.
  destruct g as [[pg |] [sg |] l m c u];
    unfold getTreasuryBalance, initProvider, new_Wallet; simpl.
  1: { split; [exact Hg |]. intros x g' Hg'. destruct x; exact Hg'. }
  all: split; [consistency |].
  all: intros x g' Hg'; destruct g' as [pg' sg' l' m' c' u'].
  all: destruct x; simpl; try solve [consistency].
  all: destruct (PRIVATE_KEY env) as [key |]; simpl.
  all: try (destruct (Wallet_address env key); simpl).
  all: try solve [consistency].
  all: try (destruct sg'; simpl).
  all: try solve [consistency].
  all: split; [consistency |].
  all: intros x g'' Hg''; destruct x; exact Hg''.
Qed.

Lemma settle_keeps env balance : keeps connection_consistent (settle env balance).
Proof.
  apply respects_keeps with (R := same_connection).
  - apply same_connection_consistent.
  - apply settle_respects, same_connection_accounting.
Qed.

Lemma executeStrategyTrade_keeps env :
  keeps connection_consistent (executeStrategyTrade env).
Proof.
  unfold executeStrategyTrade. apply keeps_bind.
  - apply getTreasuryBalance_keeps.
  - intro balance. apply settle_keeps.
Qed.

Lemma pure_keeps {A : Type} (I : Globals -> Prop) (a : A) : keeps I (Ret a).
Proof. intros g Hg. exact Hg. Qed.

Lemma timer_callback_keeps env :
  keeps connection_consistent (timer_callback env).
Proof.
  unfold timer_callback. apply keeps_bind.
  - apply executeStrategyTrade_keeps.
  - intro r. apply pure_keeps.
Qed.

Lemma manual_callback_keeps env :
  keeps connection_consistent (manual_callback env).
Proof.
  unfold manual_callback, execute_arbitrage_handler.
  apply keeps_bind; [| intros [code r]; apply pure_keeps].
  apply keeps_bind; [apply executeStrategyTrade_keeps |].
  intro r. destruct (result_error r) as [[| c s] |]; apply pure_keeps.
Qed.

Lemma status_handler_keeps env :
  keeps connection_consistent (status_handler env).
Proof.
  unfold status_handler. apply keeps_bind.
  - apply getTreasuryBalance_keeps.
  - intros b g Hg. unfold status_body, get, clock; simpl. auto.
Qed.

Lemma withdraw_handler_keeps env invalid amount :
  keeps connection_consistent (withdraw_handler env invalid amount).
Proof.
  intros g Hg. unfold withdraw_handler.
  apply wp_try_catch, wp_bind. simpl.
  destruct (is_null (signer g)); [exact Hg |].
  apply wp_bind.
  eapply wp_mono; [| | apply (getTreasuryBalance_keeps env g Hg)];
    [| intros e g' Hg'; exact Hg'].
  intros b g' Hg'. simpl.
  destruct (invalid amount b); [exact Hg' |].
  apply wp_bind.
  eapply wp_mono;
    [| | apply (respects_keeps connection_consistent same_connection
                  (transferEth amount COINBASE_WALLET)
                  same_connection_consistent
                  (transferEth_respects same_connection amount COINBASE_WALLET)
                  g' Hg')];
    [| intros e g2 Hg2; exact Hg2].
  intros [tx receipt] g2 Hg2. simpl.
  destruct (signer g2); exact Hg2.
Qed.

Lemma initial_globals_consistent : connection_consistent initial_globals.
Proof. unfold connection_consistent; simpl. repeat split; intros; try discriminate; auto. Qed.

(** X25.  Along every schedule the connection variables stay
    consistent: a signer is in place only with a provider, "connected"
    only with a provider, "disconnected" only without provider and
    without signer, and the state is one of the four the source assigns. *)
Theorem connection_variables_stay_consistent :
  forall env schedule g,
    connection_consistent g ->
    connection_consistent (globals (sys_run env schedule (boot g))).
Proof.
  intros env schedule g Hg.
  refine (proj1 (sys_run_keeps connection_consistent env schedule
                   (timer_callback_keeps env) (manual_callback_keeps env)
                   (boot g) Hg _)).
  constructor.
Qed.

Lemma connection_variables_stay_consistent_witness :
  connection_consistent
    (globals (sys_run env_keyed
                [(0, TimerFired); (1000, TimerFired);
                 (1500, Delivered 0 (RespBlockNumber 19000000));
                 (1600, Delivered 0 (RespError (JsError "unreachable")))]
                (boot initial_globals))).
Proof.
  apply (connection_variables_stay_consistent env_keyed
           [(0, TimerFired); (1000, TimerFired);
            (1500, Delivered 0 (RespBlockNumber 19000000));
            (1600, Delivered 0 (RespError (JsError "unreachable")))]
           initial_globals).
  exact initial_globals_consistent.
Defined.

(** X26.  Run on their own, a tick, a status read, a withdrawal and
    [initProvider] each keep the connection variables consistent,
    whatever the replies and wherever the run stops. *)
Theorem handlers_keep_the_connection_consistent :
  forall env invalid amount now g replies,
    connection_consistent g ->
    connection_consistent (final (run (executeStrategyTrade env) now g replies))
    /\ connection_consistent (final (run (status_handler env) now g replies))
    /\ connection_consistent
         (final (run (withdraw_handler env invalid amount) now g replies))
    /\ connection_consistent (final (run (initProvider env) now g replies)).
Proof.
  intros env invalid amount now g replies Hg.
  split; [| split; [| split]]; apply run_keeps; auto.
  - apply executeStrategyTrade_keeps.
  - apply status_handler_keeps.
  - apply withdraw_handler_keeps.
  - apply initProvider_keeps.
Qed.

Lemma handlers_keep_the_connection_consistent_witness :
  connection_consistent
    (final (run (status_handler env_badkey) 0 initial_globals
              [reply_at 1 (RespBlockNumber 19000000)])).
Proof.
  apply (handlers_keep_the_connection_consistent env_badkey
           (fun _ _ => false) 0 0 initial_globals
           [reply_at 1 (RespBlockNumber 19000000)]).
  exact initial_globals_consistent.
Defined.
